(** * Glowing-circle indicator controller: a shallow embedding

    The module under verification keeps two module-level variables,
    [circle] and [styleSheet], and exposes [showCircle], [hideCircle] and
    [destroyCircle].  Everything it does is a mutation of the DOM or of
    the window's listener table, so the embedding is a state-and-exception
    monad over an explicit [world]:

    - a heap of DOM nodes addressed by reference (object identity);
    - the two module variables, holding references or [None] for [null];
    - the window's event-listener table, whose entries are function
      objects with an identity of their own;
    - the layout the browser reports through [getBoundingClientRect].

    Numbers are kept abstract behind [JSNumber]: the code only adds and
    divides, and every statement below holds whatever those operations
    are (IEEE doubles in a browser, rationals in the examples).

    The module embedded here is the one with the color parameter; its
    sibling without one has the same lifecycle code with the blue
    appearance fixed at creation. *)

From Stdlib Require Import QArith.
From stdpp Require Import gmap strings list fin_maps.

Local Open Scope string_scope.
Local Open Scope nat_scope.
Local Open Scope list_scope.

(** ** Numbers and geometry *)

Class JSNumber (num : Type) := {
  num_add : num → num → num;
  num_div : num → num → num;
  num_two : num
}.

Record DOMRect (num : Type) := mkRect {
  rect_top : num;
  rect_left : num;
  rect_width : num;
  rect_height : num
}.
Arguments mkRect {num}.
Arguments rect_top {num}.
Arguments rect_left {num}.
Arguments rect_width {num}.
Arguments rect_height {num}.

(** ** DOM objects *)

(** References stand for object identity; [target]s name the elements
    owned by the page, which the module only ever measures. *)
Abbreviation ref := nat (only parsing).
Abbreviation target := nat (only parsing).

(** A value assigned to a style property: a literal, or the template
    literal [`${n}px`]. *)
Inductive cssval (num : Type) :=
  | Css (s : string)
  | Px (n : num).
Arguments Css {num}.
Arguments Px {num}.

Record node (num : Type) := mkNode {
  tagName : string;
  props : gmap string string;
  style : gmap string (cssval num);
  children : list ref
}.
Arguments mkNode {num}.
Arguments tagName {num}.
Arguments props {num}.
Arguments style {num}.
Arguments children {num}.

(** The two arrow functions the module writes: the recompute callback,
    which captures [targetElement], and the empty one of [destroyCircle]. *)
Inductive closure :=
  | RecomputeFor (t : target)
  | EmptyBody.

Record funobj := mkFun { fid : ref; fbody : closure }.

Record world (num : Type) := mkWorld {
  circle : option ref;
  styleSheet : option ref;
  nodes : gmap ref (node num);
  listeners : list (string * funobj);
  layout : target → DOMRect num;
  nextRef : ref
}.
Arguments mkWorld {num}.
Arguments circle {num}.
Arguments styleSheet {num}.
Arguments nodes {num}.
Arguments listeners {num}.
Arguments layout {num}.
Arguments nextRef {num}.

Inductive exn :=
  | NullDereference
  | NoSuchNode (r : ref).

Inductive outcome (num A : Type) :=
  | Ok (a : A) (w : world num)
  | Throw (e : exn).
Arguments Ok {num A}.
Arguments Throw {num A}.

(** [document.head] and [document.body] are the two nodes every world
    starts with. *)
Definition head_ref : ref := 0.
Definition body_ref : ref := 1.

(** Rationals as one interpretation of the numbers, used to run the
    module on concrete layouts. *)
#[export] Instance Q_JSNumber : JSNumber Q :=
  {| num_add := Qplus; num_div := Qdiv; num_two := 2%Q |}.

Section Controller.
Context {num : Type} `{JSNumber num}.

Definition M (A : Type) : Type := world num → outcome num A.

Definition ret {A} (a : A) : M A := λ w, Ok a w.

Definition bind {A B} (m : M A) (k : A → M B) : M B :=
  λ w, match m w with
       | Ok a w' => k a w'
       | Throw e => Throw e
       end.

Definition throw {A} (e : exn) : M A := λ _, Throw e.

Notation "x <- m ;; k" := (bind m (λ x, k))
  (at level 100, m at next level, right associativity).
Notation "m ;;; k" := (bind m (λ _, k))
  (at level 100, right associativity).

(** *** Field updates *)

Definition with_circle (c : option ref) (w : world num) : world num :=
  mkWorld c (styleSheet w) (nodes w) (listeners w) (layout w) (nextRef w).
Definition with_styleSheet (s : option ref) (w : world num) : world num :=
  mkWorld (circle w) s (nodes w) (listeners w) (layout w) (nextRef w).
Definition with_nodes (m : gmap ref (node num)) (w : world num) : world num :=
  mkWorld (circle w) (styleSheet w) m (listeners w) (layout w) (nextRef w).
Definition with_listeners (l : list (string * funobj)) (w : world num) : world num :=
  mkWorld (circle w) (styleSheet w) (nodes w) l (layout w) (nextRef w).
Definition with_layout (f : target → DOMRect num) (w : world num) : world num :=
  mkWorld (circle w) (styleSheet w) (nodes w) (listeners w) f (nextRef w).
Definition with_nextRef (n : ref) (w : world num) : world num :=
  mkWorld (circle w) (styleSheet w) (nodes w) (listeners w) (layout w) n.

Arguments with_circle _ _ /.
Arguments with_styleSheet _ _ /.
Arguments with_nodes _ _ /.
Arguments with_listeners _ _ /.
Arguments with_layout _ _ /.
Arguments with_nextRef _ _ /.

Definition with_style (s : gmap string (cssval num)) (n : node num) : node num :=
  mkNode (tagName n) (props n) s (children n).
Definition with_props (p : gmap string string) (n : node num) : node num :=
  mkNode (tagName n) p (style n) (children n).
Definition with_children (l : list ref) (n : node num) : node num :=
  mkNode (tagName n) (props n) (style n) l.

Arguments with_style _ _ /.
Arguments with_props _ _ /.
Arguments with_children _ _ /.

(** *** Primitives of the host environment *)

(** Reading and writing the module variables. *)
Definition getCircle : M (option ref) := λ w, Ok (circle w) w.
Definition setCircle (c : option ref) : M unit := λ w, Ok tt (with_circle c w).
Definition getStyleSheet : M (option ref) := λ w, Ok (styleSheet w) w.
Definition setStyleSheet (s : option ref) : M unit :=
  λ w, Ok tt (with_styleSheet s w).

(** [x.member] on a nullable variable: a [null] throws. *)
Definition deref (x : option ref) : M ref :=
  match x with
  | Some r => ret r
  | None => throw NullDereference
  end.

(** A fresh object identity. *)
Definition alloc : M ref :=
  λ w, Ok (nextRef w) (with_nextRef (S (nextRef w)) w).

Definition getNode (r : ref) : M (node num) :=
  λ w, match nodes w !! r with
       | Some n => Ok n w
       | None => Throw (NoSuchNode r)
       end.

Definition putNode (r : ref) (n : node num) : M unit :=
  λ w, Ok tt (with_nodes (<[r := n]> (nodes w)) w).

(** [document.createElement(tag)]: a detached element without style. *)
Definition createElement (tag : string) : M ref :=
  r <- alloc;;
  putNode r (mkNode tag ∅ ∅ []) ;;;
  ret r.

(** [r.style.p = v] *)
Definition setStyle (r : ref) (p : string) (v : cssval num) : M unit :=
  n <- getNode r;;
  putNode r (with_style (<[p := v]> (style n)) n).

(** [r.p = v] for the string-valued properties ([type], [innerHTML]). *)
Definition setProp (r : ref) (p : string) (v : string) : M unit :=
  n <- getNode r;;
  putNode r (with_props (<[p := v]> (props n)) n).

(** Unlinks [c] from whichever node lists it as a child. *)
Definition unlink (c : ref) (m : gmap ref (node num)) : gmap ref (node num) :=
  (λ n, with_children (filter (λ x, x ≠ c) (children n)) n) <$> m.

(** [c.remove()] *)
Definition removeNode (c : ref) : M unit :=
  _ <- getNode c;;
  λ w, Ok tt (with_nodes (unlink c (nodes w)) w).

(** [p.appendChild(c)]: [c] leaves its former parent, if any, and becomes
    the last child of [p].  The DOM's refusal to append an ancestor is
    left out: the module only appends elements it has just created. *)
Definition appendChild (p c : ref) : M unit :=
  _ <- getNode p;;
  removeNode c ;;;
  n <- getNode p;;
  putNode p (with_children (children n ++ [c]) n).

(** [t.getBoundingClientRect()] *)
Definition getBoundingClientRect (t : target) : M (DOMRect num) :=
  λ w, Ok (layout w t) w.

(** Evaluating an arrow function yields a new function object. *)
Definition newClosure (b : closure) : M funobj :=
  r <- alloc;;
  ret (mkFun r b).

Definition same_listener (ty : string) (f : funobj) (e : string * funobj) : bool :=
  String.eqb (fst e) ty && Nat.eqb (fid (snd e)) (fid f).

(** [window.addEventListener(ty, f)]: a listener already registered for
    [ty] (the same function object) is not registered twice. *)
Definition addEventListener (ty : string) (f : funobj) : M unit :=
  λ w, if existsb (same_listener ty f) (listeners w)
       then Ok tt w
       else Ok tt (with_listeners (listeners w ++ [(ty, f)]) w).

(** [window.removeEventListener(ty, f)]: drops the entry for [ty] whose
    function object is [f]; without one, nothing happens. *)
Definition removeEventListener (ty : string) (f : funobj) : M unit :=
  λ w, Ok tt (with_listeners
                (List.filter (λ e, negb (same_listener ty f e)) (listeners w)) w).

(** ** The module, function by function *)

(** A parameter declared [color: string = "BLUE"]: [None] is an omitted
    (or [undefined]) argument. *)
Definition orBlue (color : option string) : string :=
  match color with
  | Some c => c
  | None => "BLUE"
  end.

Definition createCircleElement (color : option string) : M ref :=
  let color := orBlue color in
  circleElement <- createElement "div";;
  let gradient :=
    if String.eqb color "PURPLE"
    then "radial-gradient(circle, #9c27b0, #6a0080)"
    else if String.eqb color "GRAY"
    then "radial-gradient(circle, #c0c0c0, #808080)"
    else "radial-gradient(circle, #5f9eff, #003f9f)" in
  let boxShadow :=
    if String.eqb color "PURPLE"
    then "0 0 15px 5px rgba(156, 39, 176, 0.6), 0 0 30px 15px rgba(106, 0, 128, 0.3)"
    else if String.eqb color "GRAY"
    then "0 0 15px 5px rgba(192,192,192,0.5), 0 0 30px 15px rgba(128,128,128,0.3)"
    else "0 0 15px 5px rgba(0, 63, 159, 0.5), 0 0 30px 15px rgba(0, 63, 159, 0.3)" in
  setStyle circleElement "width" (Css "60px") ;;;
  setStyle circleElement "height" (Css "60px") ;;;
  setStyle circleElement "background" (Css gradient) ;;;
  setStyle circleElement "borderRadius" (Css "50%") ;;;
  setStyle circleElement "position" (Css "absolute") ;;;
  setStyle circleElement "transform" (Css "translate(-50%, -50%)") ;;;
  setStyle circleElement "display" (Css "flex") ;;;
  setStyle circleElement "alignItems" (Css "center") ;;;
  setStyle circleElement "justifyContent" (Css "center") ;;;
  setStyle circleElement "boxShadow" (Css boxShadow) ;;;
  setStyle circleElement "animation" (Css "glow-right 2s infinite") ;;;
  setStyle circleElement "pointerEvents" (Css "none") ;;;
  setStyle circleElement "zIndex" (Css "9999") ;;;
  ret circleElement.

Definition createIconElement : M ref :=
  icon <- createElement "div";;
  setProp icon "innerHTML" "✦" ;;;
  setStyle icon "fontSize" (Css "24px") ;;;
  setStyle icon "color" (Css "white") ;;;
  ret icon.

Definition glowKeyframes : string :=
"
            @keyframes glow-right {
                0% {
                    transform: translate(-50%, -50%) scale(0.9);
                    opacity: 0.9;
                }
                50% {
                    transform: translate(-50%, -50%) scale(1.1);
                    opacity: 0.7;
                }
                100% {
                    transform: translate(-50%, -50%) scale(0.9);
                    opacity: 0.9;
                }
            }
        ".

Definition addGlowAnimationStyles : M unit :=
  s <- getStyleSheet;;
  match s with
  | Some _ => ret tt
  | None =>
      e <- createElement "style";;
      setStyleSheet (Some e) ;;;
      s <- getStyleSheet;; r <- deref s;;
      setProp r "type" "text/css" ;;;
      s <- getStyleSheet;; r <- deref s;;
      setProp r "innerHTML" glowKeyframes ;;;
      s <- getStyleSheet;; r <- deref s;;
      appendChild head_ref r
  end.

Definition updateCirclePosition (targetElement : target) : M unit :=
  c <- getCircle;;
  match c with
  | None => ret tt
  | Some _ =>
      rect <- getBoundingClientRect targetElement;;
      c <- getCircle;; r <- deref c;;
      setStyle r "top"
        (Px (num_add (rect_top rect) (num_div (rect_height rect) num_two))) ;;;
      c <- getCircle;; r <- deref c;;
      setStyle r "left"
        (Px (num_add (rect_left rect) (num_div (rect_width rect) num_two)))
  end.

Definition createGlowingMovingCircle
    (targetElement : target) (color : option string) : M unit :=
  let color := orBlue color in
  c <- getCircle;;
  match c with
  | Some _ => ret tt
  | None =>
      addGlowAnimationStyles ;;;
      e <- createCircleElement (Some color);;
      setCircle (Some e) ;;;
      icon <- createIconElement;;
      c <- getCircle;; r <- deref c;;
      appendChild r icon ;;;
      updateCirclePosition targetElement ;;;
      c <- getCircle;; r <- deref c;;
      appendChild body_ref r ;;;
      f <- newClosure (RecomputeFor targetElement);;
      addEventListener "resize" f ;;;
      g <- newClosure (RecomputeFor targetElement);;
      addEventListener "scroll" g
  end.

Definition showCircle (targetElement : target) (color : option string) : M unit :=
  let color := orBlue color in
  c <- getCircle;;
  match c with
  | None => createGlowingMovingCircle targetElement (Some color)
  | Some _ =>
      c <- getCircle;; r <- deref c;;
      setStyle r "display" (Css "flex") ;;;
      c <- getCircle;; r <- deref c;;
      setStyle r "background"
        (Css (if String.eqb color "PURPLE"
              then "radial-gradient(circle, #9c27b0, #6a0080)"
              else if String.eqb color "GRAY"
              then "radial-gradient(circle, #c0c0c0, #808080)"
              else "radial-gradient(circle, #5f9eff, #003f9f)")) ;;;
      updateCirclePosition targetElement
  end.

Definition hideCircle : M unit :=
  c <- getCircle;;
  match c with
  | Some _ =>
      c <- getCircle;; r <- deref c;;
      setStyle r "display" (Css "none")
  | None => ret tt
  end.

Definition destroyCircle : M unit :=
  c <- getCircle;;
  match c with
  | Some _ =>
      c <- getCircle;; r <- deref c;;
      removeNode r ;;;
      setCircle None
  | None => ret tt
  end ;;;
  s <- getStyleSheet;;
  match s with
  | Some _ =>
      s <- getStyleSheet;; r <- deref s;;
      removeNode r ;;;
      setStyleSheet None
  | None => ret tt
  end ;;;
  f <- newClosure EmptyBody;;
  removeEventListener "resize" f ;;;
  g <- newClosure EmptyBody;;
  removeEventListener "scroll" g.

(** ** The environment: events and layout *)

(** Calling a registered function object runs its body. *)
Definition callListener (f : funobj) : M unit :=
  match fbody f with
  | RecomputeFor t => updateCirclePosition t
  | EmptyBody => ret tt
  end.

Fixpoint callAll (fs : list funobj) : M unit :=
  match fs with
  | [] => ret tt
  | f :: fs => callListener f ;;; callAll fs
  end.

(** The window receives an event of type [ty]: the listeners registered
    for it when dispatch starts run in registration order. *)
Definition dispatchEvent (ty : string) : M unit :=
  λ w, callAll (snd <$> List.filter (λ e, String.eqb (fst e) ty) (listeners w)) w.

(** The page changes the geometry of its elements. *)
Definition relayout (f : target → DOMRect num) : M unit :=
  λ w, Ok tt (with_layout f w).

(** What can happen to a loaded module: a call of one of its three
    exports, a window event, or a change of layout. *)
Inductive action :=
  | CallShow (t : target) (color : option string)
  | CallHide
  | CallDestroy
  | Fire (ty : string)
  | Relayout (f : target → DOMRect num).

Definition step (a : action) : M unit :=
  match a with
  | CallShow t color => showCircle t color
  | CallHide => hideCircle
  | CallDestroy => destroyCircle
  | Fire ty => dispatchEvent ty
  | Relayout f => relayout f
  end.

Fixpoint run (acts : list action) : M unit :=
  match acts with
  | [] => ret tt
  | a :: acts => step a ;;; run acts
  end.

(** The world when the module has just been loaded: both variables are
    [null], the document has an empty head and body, and no listener is
    registered.  What the page itself puts in the document is left out,
    the module neither reads nor writes it; so the children of the body
    are the indicators in the document, and those of the head the style
    declarations. *)
Definition init (lay : target → DOMRect num) : world num :=
  mkWorld None None
    (<[head_ref := mkNode "head" ∅ ∅ []]> (<[body_ref := mkNode "body" ∅ ∅ []]> ∅))
    [] lay 2.

(** ** Observations *)

Definition childrenOf (r : ref) (w : world num) : list ref :=
  match nodes w !! r with
  | Some n => children n
  | None => []
  end.

Definition styleOf (r : ref) (p : string) (w : world num) : option (cssval num) :=
  match nodes w !! r with
  | Some n => style n !! p
  | None => None
  end.

(** The elements attached to the document body, and to its head. *)
Definition inBody (w : world num) : list ref := childrenOf body_ref w.
Definition inHead (w : world num) : list ref := childrenOf head_ref w.

(** The centre of a bounding box, as [updateCirclePosition] computes it. *)
Definition centerTop (r : DOMRect num) : num :=
  num_add (rect_top r) (num_div (rect_height r) num_two).
Definition centerLeft (r : DOMRect num) : num :=
  num_add (rect_left r) (num_div (rect_width r) num_two).

(** The worlds a loaded module can be in. *)
Definition reachable (w : world num) : Prop :=
  ∃ lay acts, run acts (init lay) = Ok tt w.

(** ** The invariant of reachable worlds *)

Record wf (w : world num) : Prop := mkWf {
  wf_head : head_ref ∈ dom (nodes w);
  wf_body : body_ref ∈ dom (nodes w);
  wf_inHead : inHead w = option_list (styleSheet w);
  wf_inBody : inBody w = option_list (circle w);
  wf_circle : ∀ c, circle w = Some c → c ∈ dom (nodes w);
  wf_sheet : ∀ s, styleSheet w = Some s → s ∈ dom (nodes w);
  wf_both : circle w = None ↔ styleSheet w = None;
  wf_distinct : ∀ c, circle w = Some c → styleSheet w ≠ Some c;
  wf_nodes_fresh : ∀ r, r ∈ dom (nodes w) → r < nextRef w;
  wf_listeners_fresh : ∀ e, e ∈ listeners w → fid (snd e) < nextRef w
}.

(** [restyled ps w w']: [w'] differs from [w] at most in the style
    properties [ps] of its nodes. *)
Definition restyled (ps : list string) (w w' : world num) : Prop :=
  circle w' = circle w ∧ styleSheet w' = styleSheet w ∧
  listeners w' = listeners w ∧ layout w' = layout w ∧
  nextRef w' = nextRef w ∧ dom (nodes w') = dom (nodes w) ∧
  (∀ r, childrenOf r w' = childrenOf r w) ∧
  (∀ r p, p ∉ ps → styleOf r p w' = styleOf r p w).

(** [sameObjects w w']: nothing but the supply of fresh identities
    differs between [w] and [w']. *)
Definition sameObjects (w w' : world num) : Prop :=
  circle w' = circle w ∧ styleSheet w' = styleSheet w ∧
  nodes w' = nodes w ∧ listeners w' = listeners w ∧ layout w' = layout w.

(** The listeners registered for one event type, in calling order. *)
Definition listenersFor (ty : string) (w : world num) : list funobj :=
  snd <$> List.filter (λ e, String.eqb (fst e) ty) (listeners w).

(** [anchored t w]: the listener called last for [resize], and the one
    called last for [scroll], recompute the position against [t]. *)
Definition anchored (t : target) (w : world num) : Prop :=
  ∀ ty, ty = "resize" ∨ ty = "scroll" →
    ∃ (fs : list funobj) f, listenersFor ty w = (fs ++ [f])%list ∧ fbody f = RecomputeFor t.

(** The style a fresh indicator gets from [createCircleElement], and the
    two color tables of the module. *)
Definition gradientOf (color : string) : string :=
  if String.eqb color "PURPLE"
  then "radial-gradient(circle, #9c27b0, #6a0080)"
  else if String.eqb color "GRAY"
  then "radial-gradient(circle, #c0c0c0, #808080)"
  else "radial-gradient(circle, #5f9eff, #003f9f)".

Definition glowOf (color : string) : string :=
  if String.eqb color "PURPLE"
  then "0 0 15px 5px rgba(156, 39, 176, 0.6), 0 0 30px 15px rgba(106, 0, 128, 0.3)"
  else if String.eqb color "GRAY"
  then "0 0 15px 5px rgba(192,192,192,0.5), 0 0 30px 15px rgba(128,128,128,0.3)"
  else "0 0 15px 5px rgba(0, 63, 159, 0.5), 0 0 30px 15px rgba(0, 63, 159, 0.3)".

Definition circleStyle (color : string) : gmap string (cssval num) :=
  <["zIndex" := Css "9999"]> (
  <["pointerEvents" := Css "none"]> (
  <["animation" := Css "glow-right 2s infinite"]> (
  <["boxShadow" := Css (glowOf color)]> (
  <["justifyContent" := Css "center"]> (
  <["alignItems" := Css "center"]> (
  <["display" := Css "flex"]> (
  <["transform" := Css "translate(-50%, -50%)"]> (
  <["position" := Css "absolute"]> (
  <["borderRadius" := Css "50%"]> (
  <["background" := Css (gradientOf color)]> (
  <["height" := Css "60px"]> (
  <["width" := Css "60px"]> ∅)))))))))))).

End Controller.

(** ** A concrete page, for running the module *)

(** Target [t] is a 100 by 40 box whose corner is at ([t], [10 t]). *)
Definition lay0 : target → DOMRect Q :=
  λ t, mkRect (inject_Z (Z.of_nat t)) (inject_Z (10 * Z.of_nat t)) 100%Q 40%Q.

(** The world a sequence of actions leads to from the page [lay0]. *)
Definition after (acts : list action) : world Q :=
  match run acts (init lay0) with
  | Ok _ w => w
  | Throw _ => init lay0
  end.

(** Three worlds of that page: the module just loaded, a purple
    indicator shown on target 1, and an indicator shown then destroyed. *)
Definition loaded : world Q := after [].
Definition purpleShown : world Q := after [CallShow 1 (Some "PURPLE")].
Definition destroyed : world Q := after [CallShow 1 None; CallDestroy].

(** ** The module without a color parameter

    The second file of the repository is the same controller with the
    blue appearance written into [createCircleElement] and no background
    update in [showCircle].  It has module variables of its own; here it
    runs alone in a world, so they are the world's [circle] and
    [styleSheet]. *)

Module Main.
Section Controller.
Context {num : Type} `{JSNumber num}.

Notation "x <- m ;; k" := (bind m (λ x, k))
  (at level 100, m at next level, right associativity).
Notation "m ;;; k" := (bind m (λ _, k))
  (at level 100, right associativity).

Definition createCircleElement : @M num ref :=
  circleElement <- createElement "div";;
  setStyle circleElement "width" (Css "60px") ;;;
  setStyle circleElement "height" (Css "60px") ;;;
  setStyle circleElement "background"
    (Css "radial-gradient(circle, #5f9eff, #003f9f)") ;;;
  setStyle circleElement "borderRadius" (Css "50%") ;;;
  setStyle circleElement "position" (Css "absolute") ;;;
  setStyle circleElement "transform" (Css "translate(-50%, -50%)") ;;;
  setStyle circleElement "display" (Css "flex") ;;;
  setStyle circleElement "alignItems" (Css "center") ;;;
  setStyle circleElement "justifyContent" (Css "center") ;;;
  setStyle circleElement "boxShadow"
    (Css "0 0 15px 5px rgba(0, 63, 159, 0.5), 0 0 30px 15px rgba(0, 63, 159, 0.3)") ;;;
  setStyle circleElement "animation" (Css "glow-right 2s infinite") ;;;
  setStyle circleElement "pointerEvents" (Css "none") ;;;
  setStyle circleElement "zIndex" (Css "9999") ;;;
  ret circleElement.

Definition createIconElement : @M num ref :=
  icon <- createElement "div";;
  setProp icon "innerHTML" "✦" ;;;
  setStyle icon "fontSize" (Css "24px") ;;;
  setStyle icon "color" (Css "white") ;;;
  ret icon.

Definition addGlowAnimationStyles : @M num unit :=
  s <- getStyleSheet;;
  match s with
  | Some _ => ret tt
  | None =>
      e <- createElement "style";;
      setStyleSheet (Some e) ;;;
      s <- getStyleSheet;; r <- deref s;;
      setProp r "type" "text/css" ;;;
      s <- getStyleSheet;; r <- deref s;;
      setProp r "innerHTML" glowKeyframes ;;;
      s <- getStyleSheet;; r <- deref s;;
      appendChild head_ref r
  end.

Definition updateCirclePosition (targetElement : target) : @M num unit :=
  c <- getCircle;;
  match c with
  | None => ret tt
  | Some _ =>
      rect <- getBoundingClientRect targetElement;;
      c <- getCircle;; r <- deref c;;
      setStyle r "top"
        (Px (num_add (rect_top rect) (num_div (rect_height rect) num_two))) ;;;
      c <- getCircle;; r <- deref c;;
      setStyle r "left"
        (Px (num_add (rect_left rect) (num_div (rect_width rect) num_two)))
  end.

Definition createGlowingMovingCircle (targetElement : target) : @M num unit :=
  c <- getCircle;;
  match c with
  | Some _ => ret tt
  | None =>
      addGlowAnimationStyles ;;;
      e <- createCircleElement;;
      setCircle (Some e) ;;;
      icon <- createIconElement;;
      c <- getCircle;; r <- deref c;;
      appendChild r icon ;;;
      updateCirclePosition targetElement ;;;
      c <- getCircle;; r <- deref c;;
      appendChild body_ref r ;;;
      f <- newClosure (RecomputeFor targetElement);;
      addEventListener "resize" f ;;;
      g <- newClosure (RecomputeFor targetElement);;
      addEventListener "scroll" g
  end.

Definition showCircle (targetElement : target) : @M num unit :=
  c <- getCircle;;
  match c with
  | None => createGlowingMovingCircle targetElement
  | Some _ =>
      c <- getCircle;; r <- deref c;;
      setStyle r "display" (Css "flex") ;;;
      updateCirclePosition targetElement
  end.

Definition hideCircle : @M num unit :=
  c <- getCircle;;
  match c with
  | Some _ =>
      c <- getCircle;; r <- deref c;;
      setStyle r "display" (Css "none")
  | None => ret tt
  end.

Definition destroyCircle : @M num unit :=
  c <- getCircle;;
  match c with
  | Some _ =>
      c <- getCircle;; r <- deref c;;
      removeNode r ;;;
      setCircle None
  | None => ret tt
  end ;;;
  s <- getStyleSheet;;
  match s with
  | Some _ =>
      s <- getStyleSheet;; r <- deref s;;
      removeNode r ;;;
      setStyleSheet None
  | None => ret tt
  end ;;;
  f <- newClosure EmptyBody;;
  removeEventListener "resize" f ;;;
  g <- newClosure EmptyBody;;
  removeEventListener "scroll" g.

(** The environment of this module: its listeners call its own
    [updateCirclePosition]. *)
Definition callListener (f : funobj) : @M num unit :=
  match fbody f with
  | RecomputeFor t => updateCirclePosition t
  | EmptyBody => ret tt
  end.

Fixpoint callAll (fs : list funobj) : @M num unit :=
  match fs with
  | [] => ret tt
  | f :: fs => callListener f ;;; callAll fs
  end.

Definition dispatchEvent (ty : string) : @M num unit :=
  λ w, callAll (snd <$> List.filter (λ e, String.eqb (fst e) ty) (listeners w)) w.

Inductive action :=
  | CallShow (t : target)
  | CallHide
  | CallDestroy
  | Fire (ty : string)
  | Relayout (f : target → DOMRect num).

Definition step (a : action) : @M num unit :=
  match a with
  | CallShow t => showCircle t
  | CallHide => hideCircle
  | CallDestroy => destroyCircle
  | Fire ty => dispatchEvent ty
  | Relayout f => relayout f
  end.

Fixpoint run (acts : list action) : @M num unit :=
  match acts with
  | [] => ret tt
  | a :: acts => step a ;;; run acts
  end.

End Controller.
End Main.

(** The call of the color module that a call of the plain one stands
    for: the same, with no color given. *)
Definition withoutColor {num : Type} (a : @Main.action num) : @action num :=
  match a with
  | Main.CallShow t => CallShow t None
  | Main.CallHide => CallHide
  | Main.CallDestroy => CallDestroy
  | Main.Fire ty => Fire ty
  | Main.Relayout f => Relayout f
  end.

(** ** Reading a sequence of actions *)

(** The number of [showCircle] calls in [acts] that find no handle, when
    [present] tells whether there is one at the start. *)
Fixpoint creations {num : Type} (present : bool) (acts : list (@action num)) : nat :=
  match acts with
  | [] => 0
  | CallShow _ _ :: acts => (if present then 0 else 1) + creations true acts
  | CallDestroy :: acts => creations false acts
  | _ :: acts => creations present acts
  end.

(** The target of the [showCircle] call that created the handle [acts]
    ends with, if it ends with one; [cur] is that target at the start. *)
Fixpoint creationTarget {num : Type} (cur : option target) (acts : list (@action num))
    : option target :=
  match acts with
  | [] => cur
  | CallShow t _ :: acts =>
      creationTarget (match cur with Some t0 => Some t0 | None => Some t end) acts
  | CallDestroy :: acts => creationTarget None acts
  | _ :: acts => creationTarget cur acts
  end.

(** The style properties an action assigns on an existing indicator. *)
Definition writes {num : Type} (a : @action num) : list string :=
  match a with
  | CallShow _ _ => ["display"; "background"; "top"; "left"]
  | CallHide => ["display"]
  | Fire _ => ["top"; "left"]
  | CallDestroy | Relayout _ => []
  end.

(** [kept c ps w w']: from [w] to [w'] the variables, the listeners, the
    tree and every node but [c] are the same, and [c] has changed at
    most in the style properties [ps]. *)
Definition kept {num : Type} (c : ref) (ps : list string) (w w' : world num) : Prop :=
  circle w' = circle w ∧ styleSheet w' = styleSheet w ∧
  listeners w' = listeners w ∧ nextRef w' = nextRef w ∧
  (∀ r, r ≠ c → nodes w' !! r = nodes w !! r) ∧
  (∀ r, childrenOf r w' = childrenOf r w) ∧
  (∀ p, p ∉ ps → styleOf c p w' = styleOf c p w).

(** The style an indicator has once created on a box [rect]. *)
Definition createdStyle {num : Type} `{JSNumber num}
    (color : option string) (rect : DOMRect num) : gmap string (cssval num) :=
  <["left" := Px (centerLeft rect)]>
    (<["top" := Px (centerTop rect)]> (circleStyle (orBlue color))).

(** A page of the plain module: an indicator shown on target 1. *)
Definition plainShown : world Q :=
  match Main.run [Main.CallShow 1] (init lay0) with
  | Ok _ w => w
  | Throw _ => init lay0
  end.

Section Properties.
Context {num : Type} `{JSNumber num}.

(** ** Running the monad *)

Lemma bind_ok {A B} (m : M A) (k : A → M B) (w : world num) a w' :
  m w = Ok a w' → bind m k w = k a w'.
Proof. intros E. unfold bind. by rewrite E. Qed.

Lemma bind_inv {A B} (m : M A) (k : A → M B) (w : world num) b w2 :
  bind m k w = Ok b w2 → ∃ a w1, m w = Ok a w1 ∧ k a w1 = Ok b w2.
Proof. unfold bind. destruct (m w) as [a w1|e]; [eauto | done]. Qed.

Lemma bind_assoc {A B C} (m : M A) (k : A → M B) (k' : B → M C) (w : world num) :
  bind (bind m k) k' w = bind m (λ a, bind (k a) k') w.
Proof. unfold bind. by destruct (m w). Qed.

Lemma getNode_ok r n (w : world num) :
  nodes w !! r = Some n → getNode r w = Ok n w.
Proof. intros E. unfold getNode. by rewrite E. Qed.

Lemma setStyle_ok r p v n (w : world num) :
  nodes w !! r = Some n →
  setStyle r p v w
  = Ok tt (with_nodes (<[r := with_style (<[p := v]> (style n)) n]> (nodes w)) w).
Proof. intros E. unfold setStyle. by rewrite (bind_ok _ _ _ _ _ (getNode_ok _ _ _ E)). Qed.

Lemma setProp_ok r p v n (w : world num) :
  nodes w !! r = Some n →
  setProp r p v w
  = Ok tt (with_nodes (<[r := with_props (<[p := v]> (props n)) n]> (nodes w)) w).
Proof. intros E. unfold setProp. by rewrite (bind_ok _ _ _ _ _ (getNode_ok _ _ _ E)). Qed.

Lemma lookup_unlink c (m : gmap ref (node num)) r :
  unlink c m !! r
  = (λ n, with_children (filter (λ x, x ≠ c) (children n)) n) <$> m !! r.
Proof. unfold unlink. apply lookup_fmap. Qed.

Lemma dom_unlink c (m : gmap ref (node num)) : dom (unlink c m) = dom m.
Proof. unfold unlink. apply dom_fmap_L. Qed.

Lemma removeNode_ok c n (w : world num) :
  nodes w !! c = Some n →
  removeNode c w = Ok tt (with_nodes (unlink c (nodes w)) w).
Proof. intros E. unfold removeNode. by rewrite (bind_ok _ _ _ _ _ (getNode_ok _ _ _ E)). Qed.

Lemma appendChild_ok p c np nc (w : world num) :
  nodes w !! p = Some np → nodes w !! c = Some nc →
  appendChild p c w
  = Ok tt (with_nodes
             (<[p := with_children (filter (λ x, x ≠ c) (children np) ++ [c]) np]>
                (unlink c (nodes w))) w).
Proof.
  intros Ep Ec. unfold appendChild.
  rewrite (bind_ok _ _ _ _ _ (getNode_ok _ _ _ Ep)).
  rewrite (bind_ok _ _ _ _ _ (removeNode_ok _ _ _ Ec)).
  erewrite bind_ok; last first.
  { apply getNode_ok. cbn. rewrite lookup_unlink, Ep. reflexivity. }
  reflexivity.
Qed.

Lemma createElement_ok tag (w : world num) :
  createElement tag w
  = Ok (nextRef w)
       (with_nodes (<[nextRef w := mkNode tag ∅ ∅ []]> (nodes w))
          (with_nextRef (S (nextRef w)) w)).
Proof. reflexivity. Qed.

(** Normalising a world after a step: the projections of a world written
    with [with_*] compute. *)
Ltac norm :=
  cbn [circle styleSheet nodes listeners layout nextRef
       with_circle with_styleSheet with_nodes with_listeners with_layout
       with_nextRef tagName props style children with_style with_props
       with_children] in *.

(** One statement of a body: run the primitive [tac] proves, then go on
    with the rest. *)
Ltac step_with tac :=
  rewrite ?bind_assoc; erewrite bind_ok; [ | tac ]; norm.

Ltac refs_differ := norm; unfold head_ref, body_ref in *; lia.

(** Looking a reference up in a heap built by inserts and unlinks. *)
Ltac find_node := first
  [ rewrite lookup_insert_eq
  | rewrite lookup_insert_ne by refs_differ; find_node
  | rewrite lookup_unlink; find_node
  | match goal with E : ?m !! ?r = Some _ |- context [?m !! ?r] => rewrite E end ].

Ltac on_node := norm; find_node; reflexivity.

Ltac step_style := step_with ltac:(apply setStyle_ok; on_node);
  try rewrite insert_insert_eq.
Ltac step_prop := step_with ltac:(apply setProp_ok; on_node);
  try rewrite insert_insert_eq.
Ltac step_prim := step_with ltac:(reflexivity).

Lemma createCircleElement_ok color (w : world num) :
  createCircleElement color w
  = Ok (nextRef w)
       (with_nodes
          (<[nextRef w := mkNode "div" ∅ (circleStyle (orBlue color)) []]> (nodes w))
          (with_nextRef (S (nextRef w)) w)).
Proof.
  destruct w as [ci ss m ls lay nx]. unfold createCircleElement.
  step_with ltac:(apply createElement_ok).
  do 13 step_style.
  reflexivity.
Qed.

Lemma createIconElement_ok (w : world num) :
  createIconElement w
  = Ok (nextRef w)
       (with_nodes
          (<[nextRef w := mkNode "div" (<["innerHTML" := "✦"]> ∅)
                            (<["color" := Css "white"]> (<["fontSize" := Css "24px"]> ∅))
                            []]> (nodes w))
          (with_nextRef (S (nextRef w)) w)).
Proof.
  destruct w as [ci ss m ls lay nx]. unfold createIconElement.
  step_with ltac:(apply createElement_ok).
  step_prop. do 2 step_style.
  reflexivity.
Qed.

Lemma updateCirclePosition_absent t (w : world num) :
  circle w = None → updateCirclePosition t w = Ok tt w.
Proof.
  intros E. unfold updateCirclePosition.
  erewrite bind_ok by reflexivity. by rewrite E.
Qed.

Lemma updateCirclePosition_ok t c n (w : world num) :
  circle w = Some c → nodes w !! c = Some n →
  updateCirclePosition t w
  = Ok tt (with_nodes
             (<[c := with_style
                       (<["left" := Px (centerLeft (layout w t))]>
                          (<["top" := Px (centerTop (layout w t))]> (style n))) n]>
                (nodes w)) w).
Proof.
  destruct w as [ci ss m ls lay nx]. norm. intros -> En.
  unfold updateCirclePosition.
  do 4 step_prim. step_style. do 2 step_prim.
  erewrite setStyle_ok by on_node. norm. by rewrite insert_insert_eq.
Qed.

Lemma hideCircle_absent (w : world num) :
  circle w = None → hideCircle w = Ok tt w.
Proof.
  intros E. unfold hideCircle.
  erewrite bind_ok by reflexivity. by rewrite E.
Qed.

Lemma hideCircle_ok c n (w : world num) :
  circle w = Some c → nodes w !! c = Some n →
  hideCircle w
  = Ok tt (with_nodes
             (<[c := with_style (<["display" := Css "none"]> (style n)) n]> (nodes w)) w).
Proof.
  destruct w as [ci ss m ls lay nx]. norm. intros -> En.
  unfold hideCircle. do 3 step_prim.
  by erewrite setStyle_ok by on_node.
Qed.

Lemma showCircle_ok t color c n (w : world num) :
  circle w = Some c → nodes w !! c = Some n →
  showCircle t color w
  = Ok tt (with_nodes
             (<[c := with_style
                       (<["left" := Px (centerLeft (layout w t))]>
                          (<["top" := Px (centerTop (layout w t))]>
                             (<["background" := Css (gradientOf (orBlue color))]>
                                (<["display" := Css "flex"]> (style n))))) n]>
                (nodes w)) w).
Proof.
  destruct w as [ci ss m ls lay nx]. norm. intros -> En.
  unfold showCircle. do 3 step_prim. step_style. do 2 step_prim. step_style.
  erewrite updateCirclePosition_ok by (first [reflexivity | on_node]).
  norm. by rewrite insert_insert_eq.
Qed.

Lemma showCircle_absent t color (w : world num) :
  circle w = None →
  showCircle t color w = createGlowingMovingCircle t (Some (orBlue color)) w.
Proof.
  intros E. unfold showCircle.
  erewrite bind_ok by reflexivity. by rewrite E.
Qed.

Lemma addGlowAnimationStyles_present s (w : world num) :
  styleSheet w = Some s → addGlowAnimationStyles w = Ok tt w.
Proof.
  intros E. unfold addGlowAnimationStyles.
  erewrite bind_ok by reflexivity. by rewrite E.
Qed.

Lemma addGlowAnimationStyles_absent hd (w : world num) :
  styleSheet w = None → nodes w !! head_ref = Some hd → head_ref < nextRef w →
  addGlowAnimationStyles w
  = Ok tt (with_nodes
             (<[head_ref := with_children
                              (filter (λ x, x ≠ nextRef w) (children hd) ++ [nextRef w]) hd]>
                (unlink (nextRef w)
                   (<[nextRef w := mkNode "style"
                                     (<["innerHTML" := glowKeyframes]>
                                        (<["type" := "text/css"]> ∅)) ∅ []]>
                      (nodes w))))
             (with_styleSheet (Some (nextRef w)) (with_nextRef (S (nextRef w)) w))).
Proof.
  destruct w as [ci ss m ls lay nx]. norm. intros -> Eh Hlt.
  unfold addGlowAnimationStyles. step_prim.
  step_with ltac:(apply createElement_ok).
  do 3 step_prim. step_prop. do 2 step_prim. step_prop. do 2 step_prim.
  erewrite appendChild_ok by on_node. reflexivity.
Qed.

Lemma existsb_fresh ty f (ls : list (string * funobj)) :
  (∀ e, e ∈ ls → fid (snd e) < fid f) → existsb (same_listener ty f) ls = false.
Proof.
  induction ls as [|e ls IH]; intros Hf; [done|]. cbn.
  rewrite IH by (intros; apply Hf; by right).
  assert (fid (snd e) < fid f) as Hlt by (apply Hf; by left).
  unfold same_listener. replace (Nat.eqb (fid (snd e)) (fid f)) with false.
  - by rewrite andb_false_r.
  - symmetry. apply Nat.eqb_neq. lia.
Qed.

Lemma filter_fresh ty f (ls : list (string * funobj)) :
  (∀ e, e ∈ ls → fid (snd e) < fid f) →
  List.filter (λ e, negb (same_listener ty f e)) ls = ls.
Proof.
  induction ls as [|e ls IH]; intros Hf; [done|]. cbn.
  rewrite IH by (intros; apply Hf; by right).
  assert (fid (snd e) < fid f) as Hlt by (apply Hf; by left).
  unfold same_listener. replace (Nat.eqb (fid (snd e)) (fid f)) with false.
  - by rewrite andb_false_r.
  - symmetry. apply Nat.eqb_neq. lia.
Qed.

Lemma addEventListener_fresh ty f (w : world num) :
  (∀ e, e ∈ listeners w → fid (snd e) < fid f) →
  addEventListener ty f w
  = Ok tt (with_listeners (listeners w ++ [(ty, f)]) w).
Proof. intros Hf. unfold addEventListener. by rewrite existsb_fresh. Qed.

Lemma removeEventListener_fresh ty f (w : world num) :
  (∀ e, e ∈ listeners w → fid (snd e) < fid f) →
  removeEventListener ty f w = Ok tt w.
Proof.
  intros Hf. unfold removeEventListener. rewrite filter_fresh by done.
  by destruct w.
Qed.

Ltac filters :=
  repeat first [ rewrite filter_cons_True by lia
               | rewrite filter_cons_False by lia
               | rewrite filter_nil ].

(** ** Consequences of the invariant *)

Lemma wf_head_node (w : world num) :
  wf w → ∃ hd, nodes w !! head_ref = Some hd ∧ children hd = option_list (styleSheet w).
Proof.
  intros Hw. destruct (proj1 (elem_of_dom _ _) (wf_head _ Hw)) as [hd E].
  exists hd. split; [done|]. rewrite <- (wf_inHead _ Hw).
  unfold inHead, childrenOf. by rewrite E.
Qed.

Lemma wf_body_node (w : world num) :
  wf w → ∃ bd, nodes w !! body_ref = Some bd ∧ children bd = option_list (circle w).
Proof.
  intros Hw. destruct (proj1 (elem_of_dom _ _) (wf_body _ Hw)) as [bd E].
  exists bd. split; [done|]. rewrite <- (wf_inBody _ Hw).
  unfold inBody, childrenOf. by rewrite E.
Qed.

Lemma wf_circle_node (w : world num) c :
  wf w → circle w = Some c → ∃ n, nodes w !! c = Some n.
Proof. intros Hw E. apply (elem_of_dom (nodes w) c), (wf_circle _ Hw), E. Qed.

Lemma wf_sheet_node (w : world num) s :
  wf w → styleSheet w = Some s → ∃ n, nodes w !! s = Some n.
Proof. intros Hw E. apply (elem_of_dom (nodes w) s), (wf_sheet _ Hw), E. Qed.

Lemma wf_fresh_unused (w : world num) :
  wf w → nodes w !! nextRef w = None.
Proof.
  intros Hw. apply not_elem_of_dom. intros Hin.
  apply (wf_nodes_fresh _ Hw) in Hin. lia.
Qed.

Lemma wf_nextRef (w : world num) : wf w → 2 ≤ nextRef w.
Proof.
  intros Hw. pose proof (wf_nodes_fresh _ Hw _ (wf_body _ Hw)). unfold body_ref in *. lia.
Qed.

Lemma createGlowingMovingCircle_new t color (w : world num) :
  wf w → circle w = None →
  ∃ w', createGlowingMovingCircle t color w = Ok tt w' ∧
    circle w' = Some (S (nextRef w)) ∧
    styleSheet w' = Some (nextRef w) ∧
    nextRef w' = 5 + nextRef w ∧
    layout w' = layout w ∧
    listeners w'
    = (listeners w ++ [("resize", mkFun (3 + nextRef w) (RecomputeFor t));
                       ("scroll", mkFun (4 + nextRef w) (RecomputeFor t))])%list ∧
    dom (nodes w') = {[ nextRef w; S (nextRef w); S (S (nextRef w)) ]} ∪ dom (nodes w) ∧
    inHead w' = [nextRef w] ∧
    inBody w' = [S (nextRef w)] ∧
    ∃ n, nodes w' !! S (nextRef w) = Some n ∧
         tagName n = "div" ∧
         children n = [S (S (nextRef w))] ∧
         style n = <["left" := Px (centerLeft (layout w t))]>
                     (<["top" := Px (centerTop (layout w t))]>
                        (circleStyle (orBlue color))).
Proof.
  intros Hw Hc.
  destruct (wf_head_node _ Hw) as (hd & Ehd & Chd).
  destruct (wf_body_node _ Hw) as (bd & Ebd & Cbd).
  pose proof (wf_nextRef _ Hw) as Hnx.
  pose proof (proj1 (wf_both _ Hw) Hc) as Hs.
  pose proof (wf_listeners_fresh _ Hw) as Hls.
  destruct w as [ci ss m ls lay nx]. norm. subst ci ss. cbn in Chd, Cbd.
  eexists. split.
  { unfold createGlowingMovingCircle. step_prim.
    step_with ltac:(eapply addGlowAnimationStyles_absent; [reflexivity | on_node | refs_differ ]).
    step_with ltac:(apply createCircleElement_ok).
    step_prim.
    step_with ltac:(apply createIconElement_ok).
    do 2 step_prim.
    step_with ltac:(eapply appendChild_ok; on_node).
    step_with ltac:(eapply updateCirclePosition_ok; [reflexivity | on_node]).
    do 2 step_prim.
    step_with ltac:(eapply appendChild_ok; on_node).
    step_prim.
    step_with ltac:(apply addEventListener_fresh; norm; cbn [fid]; intros e He; apply Hls in He; lia).
    step_prim.
    apply addEventListener_fresh. norm. cbn [fid]. intros e He.
    apply elem_of_app in He as [He|He%list_elem_of_singleton].
    - apply Hls in He. lia.
    - subst e. cbn. lia. }
  norm. rewrite Chd, Cbd.
  assert (head_ref ∈ dom m) by (apply elem_of_dom; eauto).
  assert (body_ref ∈ dom m) by (apply elem_of_dom; eauto).
  repeat split.
  - by rewrite <- app_assoc.
  - repeat (rewrite dom_insert_L || rewrite dom_unlink).
    apply set_eq. intros x.
    rewrite !elem_of_union, !elem_of_singleton. intuition (subst; auto).
  - unfold inHead, childrenOf. norm. find_node. simpl. by filters.
  - unfold inBody, childrenOf. norm. by find_node.
  - eexists. split; [on_node|]. simpl. by filters.
Qed.
Lemma newClosure_ok b (w : world num) :
  newClosure b w = Ok (mkFun (nextRef w) b) (with_nextRef (S (nextRef w)) w).
Proof. reflexivity. Qed.

Lemma destroyCircle_present c s (w : world num) :
  wf w → circle w = Some c → styleSheet w = Some s →
  destroyCircle w
  = Ok tt (mkWorld None None (unlink s (unlink c (nodes w)))
             (listeners w) (layout w) (2 + nextRef w)).
Proof.
  intros Hw Hc Hs.
  destruct (wf_circle_node _ _ Hw Hc) as [nc Ec].
  destruct (wf_sheet_node _ _ Hw Hs) as [ns Es].
  pose proof (wf_listeners_fresh _ Hw) as Hls.
  destruct w as [ci ss m ls lay nx]. norm. subst ci ss.
  unfold destroyCircle. do 3 step_prim.
  step_with ltac:(eapply removeNode_ok; on_node).
  do 4 step_prim.
  step_with ltac:(eapply removeNode_ok; on_node).
  do 2 step_prim.
  step_with ltac:(apply removeEventListener_fresh; norm; cbn [fid];
                  intros e He; apply Hls in He; lia).
  step_prim.
  apply removeEventListener_fresh; norm; cbn [fid]. intros e He; apply Hls in He; lia.
Qed.

Lemma destroyCircle_absent (w : world num) :
  (∀ e, e ∈ listeners w → fid (snd e) < nextRef w) →
  circle w = None → styleSheet w = None →
  destroyCircle w = Ok tt (with_nextRef (2 + nextRef w) w).
Proof.
  intros Hls Hc Hs.
  destruct w as [ci ss m ls lay nx]. norm. subst ci ss.
  unfold destroyCircle. do 5 step_prim.
  step_with ltac:(apply removeEventListener_fresh; norm; cbn [fid];
                  intros e He; apply Hls in He; lia).
  step_prim.
  apply removeEventListener_fresh; norm; cbn [fid]. intros e He; apply Hls in He; lia.
Qed.

(** ** Restyling keeps the invariant *)

Lemma restyled_refl ps (w : world num) : restyled ps w w.
Proof. by repeat split. Qed.

Lemma restyled_trans ps (w1 w2 w3 : world num) :
  restyled ps w1 w2 → restyled ps w2 w3 → restyled ps w1 w3.
Proof.
  intros (A1 & A2 & A3 & A4 & A5 & A6 & A7 & A8) (B1 & B2 & B3 & B4 & B5 & B6 & B7 & B8).
  unfold restyled. rewrite B1, B2, B3, B4, B5, B6. repeat split; try done.
  - intros r. by rewrite B7.
  - intros r p Hp. rewrite B8 by done. by apply A8.
Qed.

Lemma restyled_weaken ps qs (w w' : world num) :
  ps ⊆ qs → restyled ps w w' → restyled qs w w'.
Proof.
  intros Hsub (A1 & A2 & A3 & A4 & A5 & A6 & A7 & A8).
  repeat split; try done. intros r p Hp. apply A8. intros Hin. by apply Hp, Hsub.
Qed.

Lemma restyled_node ps c n s' (w : world num) :
  nodes w !! c = Some n →
  (∀ p, p ∉ ps → s' !! p = style n !! p) →
  restyled ps w (with_nodes (<[c := with_style s' n]> (nodes w)) w).
Proof.
  intros En Hs. destruct w as [ci ss m ls lay nx]. norm.
  repeat split; norm.
  - apply dom_insert_lookup_L. by rewrite En.
  - intros r. unfold childrenOf. norm.
    destruct (decide (c = r)) as [->|Hne].
    + by rewrite lookup_insert_eq, En.
    + by rewrite lookup_insert_ne.
  - intros r p Hp. unfold styleOf. norm.
    destruct (decide (c = r)) as [->|Hne].
    + rewrite lookup_insert_eq, En. by apply Hs.
    + by rewrite lookup_insert_ne.
Qed.

Lemma wf_restyled ps (w w' : world num) : wf w → restyled ps w w' → wf w'.
Proof.
  intros Hw (A1 & A2 & A3 & A4 & A5 & A6 & A7 & A8).
  split; unfold inHead, inBody; rewrite ?A1, ?A2, ?A3, ?A5, ?A6, ?A7; apply Hw.
Qed.

Lemma wf_init (lay : target → DOMRect num) : wf (init lay).
Proof.
  assert (∀ r, r ∈ dom (nodes (init lay)) ↔ r = head_ref ∨ r = body_ref) as Hdom.
  { intros r. unfold init. norm. rewrite !dom_insert_L, dom_empty_L.
    rewrite !elem_of_union, !elem_of_singleton, elem_of_empty. tauto. }
  split.
  - apply Hdom. by left.
  - apply Hdom. by right.
  - reflexivity.
  - reflexivity.
  - intros c Hc. discriminate Hc.
  - intros s Hs. discriminate Hs.
  - reflexivity.
  - intros c Hc. discriminate Hc.
  - intros r [->| ->]%Hdom; unfold init, head_ref, body_ref; norm; lia.
  - intros e He. by apply elem_of_nil in He.
Qed.

(** ** What each operation does to a well-formed world *)

Ltac other_props :=
  let Hp := fresh in
  intros ? Hp; repeat (rewrite lookup_insert_ne; [ | intros <-; apply Hp; set_unfold; tauto ]);
  reflexivity.

Lemma updateCirclePosition_spec t (w : world num) :
  wf w →
  ∃ w', updateCirclePosition t w = Ok tt w' ∧
        restyled ["top"; "left"] w w' ∧
        ∀ c, circle w = Some c →
             styleOf c "top" w' = Some (Px (centerTop (layout w t))) ∧
             styleOf c "left" w' = Some (Px (centerLeft (layout w t))).
Proof.
  intros Hw. destruct (circle w) as [c|] eqn:Hc.
  - destruct (wf_circle_node _ _ Hw Hc) as [n En].
    eexists. split; [by apply updateCirclePosition_ok|]. split.
    + apply restyled_node; [done|]. other_props.
    + intros c' [= <-]. unfold styleOf. norm. rewrite lookup_insert_eq. norm.
      split; [by rewrite lookup_insert_ne, lookup_insert_eq | by rewrite lookup_insert_eq].
  - exists w. split; [by apply updateCirclePosition_absent|].
    split; [apply restyled_refl | done].
Qed.

Lemma hideCircle_spec (w : world num) :
  wf w →
  ∃ w', hideCircle w = Ok tt w' ∧
        restyled ["display"] w w' ∧
        ∀ c, circle w = Some c → styleOf c "display" w' = Some (Css "none").
Proof.
  intros Hw. destruct (circle w) as [c|] eqn:Hc.
  - destruct (wf_circle_node _ _ Hw Hc) as [n En].
    eexists. split; [by apply hideCircle_ok|]. split.
    + apply restyled_node; [done|]. other_props.
    + intros c' [= <-]. unfold styleOf. norm. rewrite lookup_insert_eq. norm.
      by rewrite lookup_insert_eq.
  - exists w. split; [by apply hideCircle_absent|].
    split; [apply restyled_refl | done].
Qed.

Lemma showCircle_present_spec t color c (w : world num) :
  wf w → circle w = Some c →
  ∃ w', showCircle t color w = Ok tt w' ∧
        restyled ["display"; "background"; "top"; "left"] w w' ∧
        styleOf c "display" w' = Some (Css "flex") ∧
        styleOf c "background" w' = Some (Css (gradientOf (orBlue color))) ∧
        styleOf c "top" w' = Some (Px (centerTop (layout w t))) ∧
        styleOf c "left" w' = Some (Px (centerLeft (layout w t))).
Proof.
  intros Hw Hc. destruct (wf_circle_node _ _ Hw Hc) as [n En].
  eexists. split; [by apply showCircle_ok|]. split.
  - apply restyled_node; [done|]. other_props.
  - unfold styleOf. norm. rewrite lookup_insert_eq. norm.
    repeat split; by simplify_map_eq.
Qed.

Lemma callAll_spec fs (w : world num) :
  wf w → ∃ w', callAll fs w = Ok tt w' ∧ restyled ["top"; "left"] w w'.
Proof.
  revert w. induction fs as [|f fs IH]; intros w Hw.
  - exists w. split; [done | apply restyled_refl].
  - assert (∃ w1, callListener f w = Ok tt w1 ∧ restyled ["top"; "left"] w w1)
      as (w1 & E1 & R1).
    { unfold callListener. destruct (fbody f) as [t|].
      - destruct (updateCirclePosition_spec t w Hw) as (w1 & E & R & _). eauto.
      - exists w. split; [done | apply restyled_refl]. }
    destruct (IH w1 (wf_restyled _ _ _ Hw R1)) as (w2 & E2 & R2).
    exists w2. split; [|by eapply restyled_trans].
    cbn [callAll]. by rewrite (bind_ok _ _ _ _ _ E1).
Qed.

Lemma callAll_app fs gs (w w1 w2 : world num) :
  callAll fs w = Ok tt w1 → callAll gs w1 = Ok tt w2 →
  callAll (fs ++ gs) w = Ok tt w2.
Proof.
  revert w. induction fs as [|f fs IH]; intros w E1 E2.
  - cbn in E1. injection E1 as ->. done.
  - cbn [callAll app] in *. apply bind_inv in E1 as ([] & w' & Ef & E1).
    rewrite (bind_ok _ _ _ _ _ Ef). by apply IH.
Qed.

Lemma callAll_last fs f t (w : world num) :
  wf w → fbody f = RecomputeFor t →
  ∃ w', callAll (fs ++ [f]) w = Ok tt w' ∧
        restyled ["top"; "left"] w w' ∧
        ∀ c, circle w = Some c →
             styleOf c "top" w' = Some (Px (centerTop (layout w t))) ∧
             styleOf c "left" w' = Some (Px (centerLeft (layout w t))).
Proof.
  intros Hw Hf.
  destruct (callAll_spec fs w Hw) as (w1 & E1 & R1).
  pose proof (wf_restyled _ _ _ Hw R1) as Hw1.
  destruct (updateCirclePosition_spec t w1 Hw1) as (w2 & E2 & R2 & P2).
  exists w2. split; [|split].
  - eapply callAll_app; [done|]. cbn [callAll]. unfold callListener. rewrite Hf.
    by rewrite (bind_ok _ _ _ _ _ E2).
  - by eapply restyled_trans.
  - destruct R1 as (C1 & _ & _ & L1 & _). intros c Hc. rewrite <- L1.
    apply P2. by rewrite C1.
Qed.

Lemma createGlowingMovingCircle_wf t color (w w' : world num) :
  wf w → circle w = None →
  createGlowingMovingCircle t color w = Ok tt w' → wf w'.
Proof.
  intros Hw Hc E.
  destruct (createGlowingMovingCircle_new t color w Hw Hc)
    as (w2 & E2 & Ci & Ss & Nx & _ & Ls & Dm & Hd & Bd & _).
  rewrite E in E2. injection E2 as <-.
  pose proof (wf_nodes_fresh _ Hw) as Hfresh.
  split; rewrite ?Ci, ?Ss, ?Nx, ?Ls, ?Dm; try done.
  - apply elem_of_union_r, Hw.
  - apply elem_of_union_r, Hw.
  - intros c [= <-]. rewrite !elem_of_union, !elem_of_singleton. tauto.
  - intros s [= <-]. rewrite !elem_of_union, !elem_of_singleton. tauto.
  - intros c [= <-] [= Hs]. lia.
  - intros r. rewrite !elem_of_union, !elem_of_singleton.
    intros [[[->| ->]| ->]|Hr%Hfresh]; lia.
  - intros e [He|He]%elem_of_app.
    + apply (wf_listeners_fresh _ Hw) in He. lia.
    + apply elem_of_cons in He as [->|He]; [cbn; lia|].
      apply list_elem_of_singleton in He as ->. cbn. lia.
Qed.

Lemma destroyCircle_spec (w : world num) :
  wf w →
  ∃ w', destroyCircle w = Ok tt w' ∧ wf w' ∧
        circle w' = None ∧ styleSheet w' = None ∧
        inBody w' = [] ∧ inHead w' = [] ∧
        listeners w' = listeners w ∧ layout w' = layout w ∧
        nextRef w' = 2 + nextRef w ∧
        dom (nodes w') = dom (nodes w).
Proof.
  intros Hw. destruct (circle w) as [c|] eqn:Hc.
  - destruct (styleSheet w) as [s|] eqn:Hs;
      [|by apply (wf_both _ Hw) in Hs; congruence].
    destruct (wf_head_node _ Hw) as (hd & Ehd & Chd).
    destruct (wf_body_node _ Hw) as (bd & Ebd & Cbd).
    rewrite Hs in Chd. rewrite Hc in Cbd. cbn in Chd, Cbd.
    assert (s ≠ c) as Hsc by (intros ->; by apply (wf_distinct _ Hw c)).
    assert (inBody (mkWorld None None (unlink s (unlink c (nodes w)))
                      (listeners w) (layout w) (2 + nextRef w)) = []) as HB.
    { unfold inBody, childrenOf. norm. rewrite !lookup_unlink, Ebd. cbn.
      rewrite Cbd. rewrite filter_cons_False by (intros Hn; by apply Hn).
      by rewrite !filter_nil. }
    assert (inHead (mkWorld None None (unlink s (unlink c (nodes w)))
                      (listeners w) (layout w) (2 + nextRef w)) = []) as HH.
    { unfold inHead, childrenOf. norm. rewrite !lookup_unlink, Ehd. cbn.
      rewrite Chd. rewrite filter_cons_True by done.
      rewrite filter_cons_False by (intros Hn; by apply Hn).
      by rewrite !filter_nil. }
    eexists. split; [by eapply destroyCircle_present|].
    split; [|repeat split; norm; rewrite ?dom_unlink; done].
    split; norm; rewrite ?dom_unlink; try done; try apply Hw.
    + intros r Hr%(wf_nodes_fresh _ Hw). lia.
    + intros e He%(wf_listeners_fresh _ Hw). lia.
  - pose proof (proj1 (wf_both _ Hw) Hc) as Hs.
    eexists. split; [apply destroyCircle_absent; [apply Hw|done..]|].
    destruct w as [ci ss m ls lay nx]. norm. subst ci ss.
    split; [|repeat split; apply Hw].
    split; norm; try apply Hw.
    + intros r Hr%(wf_nodes_fresh _ Hw). norm. lia.
    + intros e He%(wf_listeners_fresh _ Hw). norm. lia.
Qed.

Lemma showCircle_total t color (w : world num) :
  wf w → ∃ w', showCircle t color w = Ok tt w' ∧ wf w'.
Proof.
  intros Hw. destruct (circle w) as [c|] eqn:Hc.
  - destruct (showCircle_present_spec t color c w Hw Hc) as (w' & E & R & _).
    exists w'. split; [done | by eapply wf_restyled].
  - destruct (createGlowingMovingCircle_new t (Some (orBlue color)) w Hw Hc)
      as (w' & E & _).
    exists w'. rewrite showCircle_absent by done. split; [done|].
    by eapply createGlowingMovingCircle_wf.
Qed.

Lemma dispatchEvent_spec ty (w : world num) :
  wf w → ∃ w', dispatchEvent ty w = Ok tt w' ∧ restyled ["top"; "left"] w w'.
Proof. intros Hw. unfold dispatchEvent. by apply callAll_spec. Qed.

Lemma step_wf a (w : world num) :
  wf w → ∃ w', step a w = Ok tt w' ∧ wf w'.
Proof.
  intros Hw. destruct a as [t color| | |ty|f]; cbn [step].
  - by apply showCircle_total.
  - destruct (hideCircle_spec w Hw) as (w' & E & R & _).
    exists w'. split; [done | by eapply wf_restyled].
  - destruct (destroyCircle_spec w Hw) as (w' & E & Hw' & _). eauto.
  - destruct (dispatchEvent_spec ty w Hw) as (w' & E & R).
    exists w'. split; [done | by eapply wf_restyled].
  - eexists. split; [reflexivity|]. destruct w. split; norm; apply Hw.
Qed.

Lemma run_wf acts (w : world num) :
  wf w → ∃ w', run acts w = Ok tt w' ∧ wf w'.
Proof.
  revert w. induction acts as [|a acts IH]; intros w Hw.
  - by exists w.
  - destruct (step_wf a w Hw) as (w1 & E1 & Hw1).
    destruct (IH w1 Hw1) as (w2 & E2 & Hw2).
    exists w2. split; [|done]. cbn [run]. by rewrite (bind_ok _ _ _ _ _ E1).
Qed.

Lemma run_app acts1 acts2 (w w1 : world num) :
  run acts1 w = Ok tt w1 → run (acts1 ++ acts2) w = run acts2 w1.
Proof.
  revert w. induction acts1 as [|a acts IH]; intros w E.
  - cbn in E. by injection E as ->.
  - cbn [run app] in *. apply bind_inv in E as ([] & w' & Ea & E).
    rewrite (bind_ok _ _ _ _ _ Ea). by apply IH.
Qed.

Lemma reachable_wf (w : world num) : reachable w → wf w.
Proof.
  intros (lay & acts & E).
  destruct (run_wf acts (init lay) (wf_init lay)) as (w' & E' & Hw').
  rewrite E in E'. by injection E' as <-.
Qed.

Lemma reachable_step a (w w' : world num) :
  reachable w → step a w = Ok tt w' → reachable w'.
Proof.
  intros (lay & acts & E) Ea. exists lay, (acts ++ [a]).
  rewrite (run_app _ _ _ _ E). cbn [run]. by rewrite (bind_ok _ _ _ _ _ Ea).
Qed.

(** ** Listeners and the creation-time target *)

Lemma listenersFor_app ty e (w w' : world num) :
  listeners w' = listeners w ++ [e] →
  listenersFor ty w'
  = listenersFor ty w ++ (if String.eqb (fst e) ty then [snd e] else []).
Proof.
  intros E. unfold listenersFor. rewrite E, List.filter_app, fmap_app. cbn.
  by destruct (String.eqb (fst e) ty).
Qed.

Lemma listenersFor_registered ty t f g (ls : list (string * funobj)) (w : world num) :
  listeners w = ls ++ [("resize", f); ("scroll", g)] →
  fbody f = RecomputeFor t → fbody g = RecomputeFor t →
  ty = "resize" ∨ ty = "scroll" →
  ∃ fs h, listenersFor ty w = fs ++ [h] ∧ fbody h = RecomputeFor t.
Proof.
  intros E Hf Hg Hty. unfold listenersFor. rewrite E, List.filter_app, fmap_app.
  destruct Hty as [-> | ->]; cbn; eauto.
Qed.

Lemma step_keeps a c (w : world num) :
  wf w → circle w = Some c → a ≠ CallDestroy →
  ∃ w', step a w = Ok tt w' ∧ wf w' ∧ circle w' = Some c ∧
        listeners w' = listeners w ∧ styleSheet w' = styleSheet w ∧
        nextRef w' = nextRef w ∧ (∀ r, childrenOf r w' = childrenOf r w).
Proof.
  intros Hw Hc Ha. destruct a as [t color| | |ty|f]; cbn [step]; [| |done| |].
  - destruct (showCircle_present_spec t color c w Hw Hc)
      as (w' & E & R & _).
    exists w'. pose proof (wf_restyled _ _ _ Hw R).
    destruct R as (-> & -> & -> & _ & -> & _ & Ch & _). eauto 10.
  - destruct (hideCircle_spec w Hw) as (w' & E & R & _).
    exists w'. pose proof (wf_restyled _ _ _ Hw R).
    destruct R as (-> & -> & -> & _ & -> & _ & Ch & _). eauto 10.
  - destruct (dispatchEvent_spec ty w Hw) as (w' & E & R).
    exists w'. pose proof (wf_restyled _ _ _ Hw R).
    destruct R as (-> & -> & -> & _ & -> & _ & Ch & _). eauto 10.
  - eexists. split; [reflexivity|]. destruct w; norm.
    split; [|by repeat split]. split; norm; apply Hw.
Qed.

Lemma run_keeps acts c (w : world num) :
  wf w → circle w = Some c → Forall (λ a, a ≠ CallDestroy) acts →
  ∃ w', run acts w = Ok tt w' ∧ wf w' ∧ circle w' = Some c ∧
        listeners w' = listeners w ∧ styleSheet w' = styleSheet w ∧
        nextRef w' = nextRef w ∧ (∀ r, childrenOf r w' = childrenOf r w).
Proof.
  revert w. induction acts as [|a acts IH]; intros w Hw Hc Hall.
  - exists w. split; [done|]. split; [done|]. by repeat split.
  - apply Forall_cons in Hall as [Ha Hall].
    destruct (step_keeps a c w Hw Hc Ha) as (w1 & E1 & Hw1 & Hc1 & L1 & S1 & N1 & Ch1).
    destruct (IH w1 Hw1 Hc1 Hall) as (w2 & E2 & Hw2 & Hc2 & L2 & S2 & N2 & Ch2).
    exists w2. cbn [run]. rewrite (bind_ok _ _ _ _ _ E1).
    split; [done|]. split; [done|].
    repeat split; first [congruence | intros r; by rewrite Ch2].
Qed.

Lemma dispatchEvent_anchored ty t c (w : world num) :
  wf w → circle w = Some c → anchored t w → ty = "resize" ∨ ty = "scroll" →
  ∃ w', dispatchEvent ty w = Ok tt w' ∧
        restyled ["top"; "left"] w w' ∧
        styleOf c "top" w' = Some (Px (centerTop (layout w t))) ∧
        styleOf c "left" w' = Some (Px (centerLeft (layout w t))).
Proof.
  intros Hw Hc Ht Hty. destruct (Ht ty Hty) as (fs & f & E & Hf).
  destruct (callAll_last fs f t w Hw Hf) as (w' & Ew & R & P).
  exists w'. unfold dispatchEvent. fold (listenersFor ty w). rewrite E.
  split; [done|]. split; [done|]. by apply P.
Qed.

Lemma gradientOf_default v :
  v ≠ Some "PURPLE" → v ≠ Some "GRAY" →
  String.eqb (orBlue v) "PURPLE" = false ∧ String.eqb (orBlue v) "GRAY" = false.
Proof.
  intros Hp Hg. destruct v as [s|]; [|done]. cbn [orBlue].
  split; apply String.eqb_neq; congruence.
Qed.

Ltac style_lookup :=
  unfold circleStyle;
  repeat first [ rewrite lookup_insert_eq | rewrite lookup_insert_ne by done ];
  try reflexivity.

(** Whatever the world, [showCircle] ends with one visible indicator,
    attached to the body and placed on the centre of its target. *)
Lemma showCircle_shown t v (w : world num) :
  wf w →
  ∃ w' c, showCircle t v w = Ok tt w' ∧ wf w' ∧
          circle w' = Some c ∧ inBody w' = [c] ∧
          (∀ c0, circle w = Some c0 → c = c0) ∧
          layout w' = layout w ∧
          styleOf c "display" w' = Some (Css "flex") ∧
          styleOf c "background" w' = Some (Css (gradientOf (orBlue v))) ∧
          styleOf c "top" w' = Some (Px (centerTop (layout w t))) ∧
          styleOf c "left" w' = Some (Px (centerLeft (layout w t))).
Proof.
  intros Hw. destruct (circle w) as [c|] eqn:Hc.
  - destruct (showCircle_present_spec t v c w Hw Hc)
      as (w' & E & R & Hd & Hb & Ht & Hl).
    pose proof (wf_restyled _ _ _ Hw R) as Hw'.
    exists w', c. destruct R as (C & _ & _ & L & _).
    split; [done|]. split; [done|]. split; [congruence|].
    split; [by rewrite (wf_inBody _ Hw'), C, Hc|].
    split; [by intros ? [= <-]|]. done.
  - destruct (createGlowingMovingCircle_new t (Some (orBlue v)) w Hw Hc)
      as (w' & E & Ci & _ & _ & L & _ & _ & _ & Bd & n & En & _ & _ & Sn).
    exists w', (S (nextRef w)). rewrite showCircle_absent by done.
    split; [done|]. split; [by eapply createGlowingMovingCircle_wf|].
    split; [done|]. split; [done|]. split; [done|]. split; [done|].
    unfold styleOf. rewrite En, Sn. cbn [orBlue].
    repeat split; style_lookup.
Qed.

(** ** The properties of the specification *)

(** C1: after any sequence of operations the document holds at most one
    indicator element; a [showCircle] issued while the handle exists
    neither constructs an object nor attaches one, so two successive
    [showCircle] calls leave exactly one indicator in the body. *)
Theorem C1_single_indicator (lay : target → DOMRect num) acts t v t' v' :
  ∃ w w1 w2 c,
    run acts (init lay) = Ok tt w ∧ length (inBody w) ≤ 1 ∧
    showCircle t v w = Ok tt w1 ∧ circle w1 = Some c ∧ inBody w1 = [c] ∧
    showCircle t' v' w1 = Ok tt w2 ∧ circle w2 = Some c ∧ inBody w2 = [c] ∧
    nextRef w2 = nextRef w1 ∧ dom (nodes w2) = dom (nodes w1).
Proof.
  destruct (run_wf acts (init lay) (wf_init lay)) as (w & E & Hw).
  destruct (showCircle_shown t v w Hw) as (w1 & c & E1 & Hw1 & C1 & B1 & _).
  destruct (showCircle_present_spec t' v' c w1 Hw1 C1) as (w2 & E2 & R & _).
  destruct R as (C2 & _ & _ & _ & N2 & D2 & Ch2 & _).
  exists w, w1, w2, c. repeat split; try done.
  - rewrite (wf_inBody _ Hw). destruct (circle w); cbn; lia.
  - congruence.
  - unfold inBody. by rewrite Ch2.
Qed.

(** C2: when the handle exists, [showCircle t v] sets the background to
    the gradient of [v] and recomputes the position against [t], and the
    box-shadow keeps the value it had before the call. *)
Theorem C2_reshow_keeps_glow (w : world num) c t v :
  reachable w → circle w = Some c →
  ∃ w', showCircle t v w = Ok tt w' ∧
        styleOf c "background" w' = Some (Css (gradientOf (orBlue v))) ∧
        styleOf c "top" w' = Some (Px (centerTop (layout w t))) ∧
        styleOf c "left" w' = Some (Px (centerLeft (layout w t))) ∧
        styleOf c "boxShadow" w' = styleOf c "boxShadow" w.
Proof.
  intros Hw%reachable_wf Hc.
  destruct (showCircle_present_spec t v c w Hw Hc) as (w' & E & R & _ & Hb & Ht & Hl).
  exists w'. repeat split; try done.
  destruct R as (_ & _ & _ & _ & _ & _ & _ & St). apply St.
  set_unfold. intuition discriminate.
Qed.

(** C3: [destroyCircle] removes with function objects of its own, whose
    identity no registered listener has: in every reachable world it
    leaves the listener table as it was, and in particular the resize
    and scroll listeners a creating [showCircle] registered are still
    there after it. *)
Theorem C3_destroy_keeps_listeners (w : world num) t v :
  reachable w →
  (∃ w', destroyCircle w = Ok tt w' ∧ listeners w' = listeners w) ∧
  (circle w = None →
   ∃ w1 w2 f g,
     showCircle t v w = Ok tt w1 ∧
     listeners w1 = listeners w ++ [("resize", f); ("scroll", g)] ∧
     fbody f = RecomputeFor t ∧ fbody g = RecomputeFor t ∧
     destroyCircle w1 = Ok tt w2 ∧
     listeners w2 = listeners w ++ [("resize", f); ("scroll", g)]).
Proof.
  intros Hw%reachable_wf. split.
  - destruct (destroyCircle_spec w Hw) as (w' & E & _ & _ & _ & _ & _ & L & _). eauto.
  - intros Hc.
    destruct (createGlowingMovingCircle_new t (Some (orBlue v)) w Hw Hc)
      as (w1 & E1 & _ & _ & _ & _ & L1 & _).
    pose proof (createGlowingMovingCircle_wf _ _ _ _ Hw Hc E1) as Hw1.
    destruct (destroyCircle_spec w1 Hw1) as (w2 & E2 & _ & _ & _ & _ & _ & L2 & _).
    eexists w1, w2, _, _. rewrite showCircle_absent by done.
    repeat split; try done. by rewrite L2.
Qed.

(** C4: a color that is neither "PURPLE" nor "GRAY" (an omitted one
    included) makes [showCircle] do exactly what it does for "BLUE", on
    the creating path and on the existing-handle path alike, and the
    background it leaves is the blue gradient. *)
Theorem C4_default_is_blue (w : world num) t v :
  reachable w → v ≠ Some "PURPLE" → v ≠ Some "GRAY" →
  ∃ w' c, showCircle t v w = Ok tt w' ∧
          showCircle t (Some "BLUE") w = Ok tt w' ∧
          circle w' = Some c ∧
          styleOf c "background" w'
          = Some (Css "radial-gradient(circle, #5f9eff, #003f9f)").
Proof.
  intros Hw%reachable_wf Hp Hg.
  destruct (gradientOf_default v Hp Hg) as [Ep Eg].
  destruct (showCircle_shown t v w Hw) as (w' & c & E & _ & C & _ & _ & _ & _ & B & _).
  exists w', c. split; [done|]. split; [|split; [done|]].
  - rewrite <- E. unfold showCircle, createGlowingMovingCircle, createCircleElement.
    cbn [orBlue]. by rewrite !Ep, !Eg.
  - rewrite B. unfold gradientOf. by rewrite Ep, Eg.
Qed.

(** C5: recomputing the position against a target whose bounding box is
    (top, left, width, height) sets the indicator's [top] to
    top + height / 2 and its [left] to left + width / 2. *)
Theorem C5_position_is_center (w : world num) c t :
  reachable w → circle w = Some c →
  ∃ w', updateCirclePosition t w = Ok tt w' ∧
        styleOf c "top" w'
        = Some (Px (num_add (rect_top (layout w t))
                      (num_div (rect_height (layout w t)) num_two))) ∧
        styleOf c "left" w'
        = Some (Px (num_add (rect_left (layout w t))
                      (num_div (rect_width (layout w t)) num_two))).
Proof.
  intros Hw%reachable_wf Hc.
  destruct (updateCirclePosition_spec t w Hw) as (w' & E & _ & P).
  exists w'. split; [done|]. by apply P.
Qed.

(** C6: after [destroyCircle] the handle and the style registration are
    both absent and neither the body nor the head holds an element of
    the module; the next [showCircle] initialises in full, with a new
    style element and a new indicator carrying the creation style. *)
Theorem C6_teardown_then_recreate (lay : target → DOMRect num) acts t v :
  ∃ w w1 w2 c s,
    run acts (init lay) = Ok tt w ∧
    destroyCircle w = Ok tt w1 ∧
    circle w1 = None ∧ styleSheet w1 = None ∧ inBody w1 = [] ∧ inHead w1 = [] ∧
    showCircle t v w1 = Ok tt w2 ∧
    circle w2 = Some c ∧ styleSheet w2 = Some s ∧
    inBody w2 = [c] ∧ inHead w2 = [s] ∧
    (c ∉ dom (nodes w1)) ∧ (s ∉ dom (nodes w1)) ∧ c ≠ s ∧
    (∀ p, styleOf c p w2
          = (<["left" := Px (centerLeft (layout w1 t))]>
               (<["top" := Px (centerTop (layout w1 t))]>
                  (circleStyle (orBlue v)))) !! p).
Proof.
  destruct (run_wf acts (init lay) (wf_init lay)) as (w & E & Hw).
  destruct (destroyCircle_spec w Hw) as (w1 & E1 & Hw1 & C1 & S1 & B1 & H1 & _).
  destruct (createGlowingMovingCircle_new t (Some (orBlue v)) w1 Hw1 C1)
    as (w2 & E2 & C2 & S2 & _ & _ & _ & _ & H2 & B2 & n & En & _ & _ & Sn).
  exists w, w1, w2, (S (nextRef w1)), (nextRef w1).
  rewrite showCircle_absent by done.
  split_and!; try done; try lia.
  - intros Hin%(wf_nodes_fresh _ Hw1). lia.
  - intros Hin%(wf_nodes_fresh _ Hw1). lia.
  - intros p. unfold styleOf. by rewrite En, Sn.
Qed.

(** C7: [showCircle]; [hideCircle]; [showCircle] ends with one indicator,
    attached and visible: hiding sets [display] to none on the attached
    element, and the second show sets it back to flex on that same
    element without creating any object. *)
Theorem C7_show_hide_show (lay : target → DOMRect num) acts t v t' v' :
  ∃ w w1 w2 w3 c,
    run acts (init lay) = Ok tt w ∧
    showCircle t v w = Ok tt w1 ∧ circle w1 = Some c ∧ inBody w1 = [c] ∧
    styleOf c "display" w1 = Some (Css "flex") ∧
    hideCircle w1 = Ok tt w2 ∧ circle w2 = Some c ∧ inBody w2 = [c] ∧
    styleOf c "display" w2 = Some (Css "none") ∧
    showCircle t' v' w2 = Ok tt w3 ∧ circle w3 = Some c ∧ inBody w3 = [c] ∧
    styleOf c "display" w3 = Some (Css "flex") ∧
    nextRef w3 = nextRef w1 ∧ dom (nodes w3) = dom (nodes w1).
Proof.
  destruct (run_wf acts (init lay) (wf_init lay)) as (w & E & Hw).
  destruct (showCircle_shown t v w Hw)
    as (w1 & c & E1 & Hw1 & C1 & B1 & _ & _ & D1 & _).
  destruct (hideCircle_spec w1 Hw1) as (w2 & E2 & R2 & D2).
  pose proof (wf_restyled _ _ _ Hw1 R2) as Hw2.
  destruct R2 as (C2 & _ & _ & _ & N2 & Dm2 & Ch2 & _).
  rewrite C1 in C2.
  destruct (showCircle_present_spec t' v' c w2 Hw2 C2) as (w3 & E3 & R3 & D3 & _).
  destruct R3 as (C3 & _ & _ & _ & N3 & Dm3 & Ch3 & _).
  exists w, w1, w2, w3, c. unfold inBody in *.
  split_and!; first [ done | congruence | by apply D2
                    | by rewrite ?Ch3, ?Ch2 ].
Qed.

(** C8: with no handle, [hideCircle] returns the world it was given and
    [destroyCircle] returns one with the same variables, nodes, listeners
    and layout; and in every reachable world each of the three exported
    operations returns normally. *)
Theorem C8_absent_noop_and_total (w : world num) :
  reachable w →
  (circle w = None →
   hideCircle w = Ok tt w ∧
   ∃ w', destroyCircle w = Ok tt w' ∧ sameObjects w w') ∧
  (∀ t v, ∃ w', showCircle t v w = Ok tt w') ∧
  (∃ w', hideCircle w = Ok tt w') ∧
  (∃ w', destroyCircle w = Ok tt w').
Proof.
  intros Hw%reachable_wf. split; [|split_and!].
  - intros Hc. split; [by apply hideCircle_absent|].
    pose proof (proj1 (wf_both _ Hw) Hc) as Hs.
    eexists. split; [apply destroyCircle_absent; [apply Hw|done..]|].
    by destruct w.
  - intros t v. destruct (showCircle_total t v w Hw) as (w' & E & _). eauto.
  - destruct (hideCircle_spec w Hw) as (w' & E & _). eauto.
  - destruct (destroyCircle_spec w Hw) as (w' & E & _). eauto.
Qed.

(** C9: the style registration is guarded by a presence check, is created
    by the [showCircle] that finds it absent and by nothing else, stays
    the same element under every action but [destroyCircle], and the head
    never holds more than one. *)
Theorem C9_style_registered_once (w : world num) :
  reachable w →
  (∀ s, styleSheet w = Some s → addGlowAnimationStyles w = Ok tt w) ∧
  (styleSheet w = None →
   ∀ t v, ∃ w' s, showCircle t v w = Ok tt w' ∧ styleSheet w' = Some s ∧
                  inHead w' = [s] ∧ (s ∉ dom (nodes w))) ∧
  (styleSheet w = None →
   ∀ a w', (∀ t v, a ≠ CallShow t v) → step a w = Ok tt w' →
           styleSheet w' = None ∧ inHead w' = []) ∧
  (∀ s a w', styleSheet w = Some s → a ≠ CallDestroy → step a w = Ok tt w' →
             styleSheet w' = Some s ∧ inHead w' = [s]) ∧
  length (inHead w) ≤ 1.
Proof.
  intros Hw%reachable_wf. split; [|split; [|split; [|split]]].
  - intros s Hs. by eapply addGlowAnimationStyles_present.
  - intros Hs t v. pose proof (proj2 (wf_both _ Hw) Hs) as Hc.
    destruct (createGlowingMovingCircle_new t (Some (orBlue v)) w Hw Hc)
      as (w' & E & _ & S' & _ & _ & _ & _ & H' & _).
    exists w', (nextRef w). rewrite showCircle_absent by done.
    split_and!; try done. intros Hin%(wf_nodes_fresh _ Hw). lia.
  - intros Hs a w' Ha E.
    destruct (step_wf a w Hw) as (w2 & E2 & Hw2).
    rewrite E in E2. injection E2 as <-.
    assert (styleSheet w' = None) as Hs'.
    { destruct a as [t v| | |ty|f]; cbn [step] in E.
      - by destruct (Ha t v).
      - destruct (hideCircle_spec w Hw) as (w2 & E2 & R & _).
        rewrite E in E2. injection E2 as <-.
        destruct R as (_ & -> & _). done.
      - destruct (destroyCircle_spec w Hw) as (w2 & E2 & _ & _ & S2 & _).
        rewrite E in E2. by injection E2 as <-.
      - destruct (dispatchEvent_spec ty w Hw) as (w2 & E2 & R).
        rewrite E in E2. injection E2 as <-.
        destruct R as (_ & -> & _). done.
      - injection E as <-. by destruct w. }
    split; [done|]. by rewrite (wf_inHead _ Hw2), Hs'.
  - intros s a w' Hs Ha E.
    destruct (circle w) as [c|] eqn:Hc;
      [|apply (wf_both _ Hw) in Hc; congruence].
    destruct (step_keeps a c w Hw Hc Ha) as (w2 & E2 & Hw2 & _ & _ & S2 & _).
    rewrite E in E2. injection E2 as <-.
    split; [congruence|]. rewrite (wf_inHead _ Hw2), S2, Hs. done.
  - rewrite (wf_inHead _ Hw). destruct (styleSheet w); cbn; lia.
Qed.

(** C10: the resize and scroll listeners of a creating [showCircle t1]
    keep [t1]: a later [showCircle t2] on the existing handle places the
    indicator on the centre of [t2], but as long as the handle is not
    destroyed every resize or scroll event puts it back on the centre of
    [t1]. *)
Theorem C10_listeners_keep_first_target (w : world num) t1 v1 t2 v2 post ty :
  reachable w → circle w = None →
  Forall (λ a, a ≠ CallDestroy) post →
  ty = "resize" ∨ ty = "scroll" →
  ∃ w1 w2 w3 w4 c,
    showCircle t1 v1 w = Ok tt w1 ∧
    showCircle t2 v2 w1 = Ok tt w2 ∧ circle w2 = Some c ∧
    styleOf c "top" w2 = Some (Px (centerTop (layout w2 t2))) ∧
    styleOf c "left" w2 = Some (Px (centerLeft (layout w2 t2))) ∧
    run post w2 = Ok tt w3 ∧
    dispatchEvent ty w3 = Ok tt w4 ∧ circle w4 = Some c ∧
    styleOf c "top" w4 = Some (Px (centerTop (layout w4 t1))) ∧
    styleOf c "left" w4 = Some (Px (centerLeft (layout w4 t1))).
Proof.
  intros Hw%reachable_wf Hc Hpost Hty.
  destruct (createGlowingMovingCircle_new t1 (Some (orBlue v1)) w Hw Hc)
    as (w1 & E1 & C1 & _ & _ & _ & L1 & _).
  pose proof (createGlowingMovingCircle_wf _ _ _ _ Hw Hc E1) as Hw1.
  set (c := S (nextRef w)) in *.
  destruct (showCircle_present_spec t2 v2 c w1 Hw1 C1)
    as (w2 & E2 & R2 & _ & _ & T2 & Lf2).
  pose proof (wf_restyled _ _ _ Hw1 R2) as Hw2.
  destruct R2 as (C2 & _ & L2 & Ly2 & _). rewrite C1 in C2.
  destruct (run_keeps post c w2 Hw2 C2 Hpost) as (w3 & E3 & Hw3 & C3 & L3 & _).
  assert (anchored t1 w3) as Ha.
  { intros ty' Hty'.
    eapply listenersFor_registered;
      [rewrite L3, L2; apply L1 | reflexivity | reflexivity | done]. }
  destruct (dispatchEvent_anchored ty t1 c w3 Hw3 C3 Ha Hty)
    as (w4 & E4 & R4 & T4 & Lf4).
  destruct R4 as (C4 & _ & _ & Ly4 & _).
  exists w1, w2, w3, w4, c. rewrite showCircle_absent by done.
  rewrite Ly2, Ly4. repeat split; try done. congruence.
Qed.


(** ** Invariants along a run *)

Lemma run_invariant (P : world num → Prop) :
  (∀ a w w', wf w → P w → step a w = Ok tt w' → P w') →
  ∀ acts w w', wf w → P w → run acts w = Ok tt w' → P w'.
Proof.
  intros Hstep. induction acts as [|a acts IH]; intros w w' Hw HP E.
  - cbn in E. by injection E as <-.
  - cbn [run] in E. apply bind_inv in E as ([] & w1 & Ea & E).
    destruct (step_wf a w Hw) as (w2 & E2 & Hw2).
    rewrite Ea in E2. injection E2 as <-.
    exact (IH w1 w' Hw2 (Hstep _ _ _ Hw HP Ea) E).
Qed.

Lemma reachable_invariant (P : world num → Prop) :
  (∀ lay, P (init lay)) →
  (∀ a w w', wf w → P w → step a w = Ok tt w' → P w') →
  ∀ w, reachable w → P w.
Proof.
  intros Hinit Hstep w (lay & acts & E).
  eapply run_invariant; [done | apply wf_init | apply Hinit | done].
Qed.

Lemma reachable_run acts (w w' : world num) :
  reachable w → run acts w = Ok tt w' → reachable w'.
Proof.
  intros (lay & pre & E) E'. exists lay, (pre ++ acts).
  by rewrite (run_app _ _ _ _ E).
Qed.

(** What a step does to the handle and to the listener table. *)
Lemma step_shape a (w : world num) :
  wf w →
  ∃ w', step a w = Ok tt w' ∧ wf w' ∧
        match a with
        | CallShow t _ =>
            match circle w with
            | None =>
                circle w' = Some (S (nextRef w)) ∧
                listeners w'
                = listeners w ++ [("resize", mkFun (3 + nextRef w) (RecomputeFor t));
                                  ("scroll", mkFun (4 + nextRef w) (RecomputeFor t))]
            | Some c => circle w' = Some c ∧ listeners w' = listeners w
            end
        | CallDestroy => circle w' = None ∧ listeners w' = listeners w
        | _ => circle w' = circle w ∧ listeners w' = listeners w
        end.
Proof.
  intros Hw. destruct a as [t v| | |ty|f]; cbn [step].
  - destruct (circle w) as [c|] eqn:Hc.
    + destruct (showCircle_present_spec t v c w Hw Hc) as (w' & E & R & _).
      exists w'. split; [done|]. split; [by eapply wf_restyled|].
      destruct R as (C & _ & L & _). split; congruence.
    + destruct (createGlowingMovingCircle_new t (Some (orBlue v)) w Hw Hc)
        as (w' & E & C & _ & _ & _ & L & _).
      exists w'. rewrite showCircle_absent by done.
      split; [done|]. split; [by eapply createGlowingMovingCircle_wf|]. done.
  - destruct (hideCircle_spec w Hw) as (w' & E & R & _).
    exists w'. split; [done|]. split; [by eapply wf_restyled|].
    destruct R as (C & _ & L & _). done.
  - destruct (destroyCircle_spec w Hw) as (w' & E & Hw' & C & _ & _ & _ & L & _).
    exists w'. done.
  - destruct (dispatchEvent_spec ty w Hw) as (w' & E & R).
    exists w'. split; [done|]. split; [by eapply wf_restyled|].
    destruct R as (C & _ & L & _). done.
  - destruct (step_wf (Relayout f) w Hw) as (w' & E & Hw').
    exists w'. split; [done|]. split; [done|].
    cbn in E. injection E as <-. by destruct w.
Qed.

(** ** The document and the variables *)

(** X1: the document mirrors the two variables: the body holds the handle
    and nothing else, the head the style registration and nothing else;
    both are present or both absent, and they are different objects. *)
Theorem document_mirrors_variables (lay : target → DOMRect num) acts :
  ∃ w, run acts (init lay) = Ok tt w ∧
       inBody w = option_list (circle w) ∧
       inHead w = option_list (styleSheet w) ∧
       (circle w = None ↔ styleSheet w = None) ∧
       (∀ c, circle w = Some c → is_Some (nodes w !! c) ∧ styleSheet w ≠ Some c).
Proof.
  destruct (run_wf acts (init lay) (wf_init lay)) as (w & E & Hw).
  exists w. split_and!; try apply Hw; try done.
  intros c Hc. split; [by eapply wf_circle_node | by apply (wf_distinct _ Hw)].
Qed.

(** ** The listener table *)

(** X2: no operation and no event ever takes a listener out of the table:
    what is registered before a run is a prefix of what is registered
    after it. *)
Theorem listeners_never_removed (w : world num) acts :
  reachable w →
  ∃ w', run acts w = Ok tt w' ∧ listeners w `prefix_of` listeners w'.
Proof.
  intros Hw%reachable_wf. revert w Hw.
  induction acts as [|a acts IH]; intros w Hw.
  - by exists w.
  - destruct (step_shape a w Hw) as (w1 & E1 & Hw1 & S1).
    destruct (IH w1 Hw1) as (w2 & E2 & P2).
    exists w2. cbn [run]. rewrite (bind_ok _ _ _ _ _ E1). split; [done|].
    etrans; [|exact P2].
    destruct a as [t v| | |ty|f]; try (destruct S1 as [_ ->]; done).
    destruct (circle w); destruct S1 as [_ ->]; [done|]. by apply prefix_app_r.
Qed.

Lemma run_listeners_count acts (w : world num) :
  wf w →
  ∃ w', run acts w = Ok tt w' ∧
        length (listeners w')
        = length (listeners w)
          + 2 * creations (bool_decide (is_Some (circle w))) acts.
Proof.
  revert w. induction acts as [|a acts IH]; intros w Hw.
  - exists w. split; [done|]. cbn. lia.
  - destruct (step_shape a w Hw) as (w1 & E1 & Hw1 & S1).
    destruct (IH w1 Hw1) as (w2 & E2 & L2).
    exists w2. cbn [run]. rewrite (bind_ok _ _ _ _ _ E1). split; [done|].
    rewrite L2. destruct a as [t v| | |ty|f]; cbn [creations].
    + destruct (circle w) as [c|]; destruct S1 as [-> ->]; cbn.
      * lia.
      * rewrite length_app. cbn. lia.
    + destruct S1 as [-> ->]. done.
    + destruct S1 as [-> ->]. cbn. lia.
    + destruct S1 as [-> ->]. done.
    + destruct S1 as [-> ->]. done.
Qed.

(** X3: every [showCircle] that creates an indicator adds two listeners and
    nothing takes them away: after any run the table holds twice as many
    listeners as indicators were created. *)
Theorem listeners_count_creations (lay : target → DOMRect num) acts :
  ∃ w, run acts (init lay) = Ok tt w ∧
       length (listeners w) = 2 * creations false acts.
Proof.
  destruct (run_listeners_count acts (init lay) (wf_init lay)) as (w & E & L).
  exists w. split; [done|]. rewrite L. cbn. lia.
Qed.

Lemma callAll_absent fs (w : world num) :
  circle w = None → callAll fs w = Ok tt w.
Proof.
  intros Hc. induction fs as [|f fs IH]; [done|].
  cbn [callAll]. erewrite bind_ok; [exact IH|].
  unfold callListener. destruct (fbody f); [by apply updateCirclePosition_absent|done].
Qed.

(** X4: with no handle a window event changes nothing at all, whatever
    listeners earlier indicators have left behind. *)
Theorem event_without_handle (w : world num) ty :
  circle w = None → dispatchEvent ty w = Ok tt w.
Proof. intros Hc. unfold dispatchEvent. by apply callAll_absent. Qed.

(** X5: the module listens to resize and scroll and to nothing else, and all
    its listeners are position recomputations: an event of any other
    type leaves the world as it is. *)
Theorem listeners_are_recomputations (w : world num) :
  reachable w →
  Forall (λ e, (fst e = "resize" ∨ fst e = "scroll") ∧
               ∃ t, fbody (snd e) = RecomputeFor t) (listeners w) ∧
  ∀ ty, ty ≠ "resize" → ty ≠ "scroll" → dispatchEvent ty w = Ok tt w.
Proof.
  intros Hr.
  assert (Forall (λ e, (fst e = "resize" ∨ fst e = "scroll") ∧
                       ∃ t, fbody (snd e) = RecomputeFor t) (listeners w)) as HF.
  { revert w Hr. apply reachable_invariant.
    - intros lay. constructor.
    - intros a w w' Hw HP E.
      destruct (step_shape a w Hw) as (w2 & E2 & _ & S2).
      rewrite E in E2. injection E2 as <-.
      destruct a as [t v| | |ty|f]; try (destruct S2 as [_ ->]; done).
      destruct (circle w); destruct S2 as [_ ->]; [done|].
      apply Forall_app. split; [done|].
      apply Forall_cons. split; [split; [by left | by eexists]|].
      apply Forall_cons. split; [split; [by right | by eexists]|].
      constructor. }
  split; [done|]. intros ty Hr' Hs. unfold dispatchEvent.
  replace (List.filter (λ e, String.eqb (fst e) ty) (listeners w)) with
    (@nil (string * funobj)); [done|].
  symmetry. induction HF as [|e l [[He|He] _] _ IH]; [done|..]; cbn.
  - rewrite He. apply String.eqb_neq in Hr'. rewrite String.eqb_sym in Hr'.
    by rewrite Hr'.
  - rewrite He. apply String.eqb_neq in Hs. rewrite String.eqb_sym in Hs.
    by rewrite Hs.
Qed.

(** ** What an operation leaves alone *)

Lemma kept_refl c ps (w : world num) : kept c ps w w.
Proof. by repeat split. Qed.

Lemma kept_trans c ps (w1 w2 w3 : world num) :
  kept c ps w1 w2 → kept c ps w2 w3 → kept c ps w1 w3.
Proof.
  intros (A1 & A2 & A3 & A4 & A5 & A6 & A7) (B1 & B2 & B3 & B4 & B5 & B6 & B7).
  unfold kept. rewrite B1, B2, B3, B4. split_and!; try done.
  - intros r Hr. rewrite B5 by done. by apply A5.
  - intros r. by rewrite B6.
  - intros p Hp. rewrite B7 by done. by apply A7.
Qed.

Lemma kept_weaken c ps qs (w w' : world num) :
  ps ⊆ qs → kept c ps w w' → kept c qs w w'.
Proof.
  intros Hsub (A1 & A2 & A3 & A4 & A5 & A6 & A7).
  split_and!; try done. intros p Hp. apply A7. intros Hin. by apply Hp, Hsub.
Qed.

Lemma kept_node c ps n s' (w : world num) :
  nodes w !! c = Some n →
  (∀ p, p ∉ ps → s' !! p = style n !! p) →
  kept c ps w (with_nodes (<[c := with_style s' n]> (nodes w)) w).
Proof.
  intros En Hs. destruct w as [ci ss m ls lay nx]. norm.
  split_and!; norm; try done.
  - intros r Hr. by rewrite lookup_insert_ne.
  - intros r. unfold childrenOf. norm.
    destruct (decide (c = r)) as [->|Hne].
    + by rewrite lookup_insert_eq, En.
    + by rewrite lookup_insert_ne.
  - intros p Hp. unfold styleOf. norm.
    rewrite lookup_insert_eq, En. by apply Hs.
Qed.

Lemma callAll_kept fs c (w : world num) :
  wf w → circle w = Some c →
  ∃ w', callAll fs w = Ok tt w' ∧ wf w' ∧ kept c ["top"; "left"] w w'.
Proof.
  revert w. induction fs as [|f fs IH]; intros w Hw Hc.
  - exists w. split; [done|]. split; [done | apply kept_refl].
  - assert (∃ w1, callListener f w = Ok tt w1 ∧ wf w1 ∧ kept c ["top"; "left"] w w1)
      as (w1 & E1 & Hw1 & K1).
    { unfold callListener. destruct (fbody f) as [t|].
      - destruct (wf_circle_node _ _ Hw Hc) as [n En].
        destruct (updateCirclePosition_spec t w Hw) as (w1 & E & R & _).
        exists w1. split; [done|]. split; [by eapply wf_restyled|].
        rewrite (updateCirclePosition_ok t c n w Hc En) in E. injection E as <-.
        apply kept_node; [done|]. other_props.
      - exists w. split; [done|]. split; [done | apply kept_refl]. }
    assert (circle w1 = Some c) as Hc1 by (destruct K1 as (-> & _); done).
    destruct (IH w1 Hw1 Hc1) as (w2 & E2 & Hw2 & K2).
    exists w2. cbn [callAll]. rewrite (bind_ok _ _ _ _ _ E1).
    split; [done|]. split; [done | by eapply kept_trans].
Qed.

Lemma step_kept a c (w : world num) :
  wf w → circle w = Some c → a ≠ CallDestroy →
  ∃ w', step a w = Ok tt w' ∧ wf w' ∧ kept c (writes a) w w'.
Proof.
  intros Hw Hc Ha. destruct (wf_circle_node _ _ Hw Hc) as [n En].
  destruct (step_wf a w Hw) as (w' & E & Hw').
  exists w'. split; [done|]. split; [done|].
  destruct a as [t v| | |ty|f]; cbn [step writes] in *; [| |done| |].
  - rewrite (showCircle_ok t v c n w Hc En) in E. injection E as <-.
    apply kept_node; [done|]. other_props.
  - rewrite (hideCircle_ok c n w Hc En) in E. injection E as <-.
    apply kept_node; [done|]. other_props.
  - unfold dispatchEvent in E.
    destruct (callAll_kept
                (snd <$> List.filter (λ e, String.eqb (fst e) ty) (listeners w))
                c w Hw Hc) as (w2 & E2 & _ & K).
    rewrite E in E2. by injection E2 as <-.
  - injection E as <-. destruct w. by repeat split.
Qed.

Lemma run_kept acts c ps (w : world num) :
  wf w → circle w = Some c →
  Forall (λ a, a ≠ CallDestroy ∧ writes a ⊆ ps) acts →
  ∃ w', run acts w = Ok tt w' ∧ wf w' ∧ circle w' = Some c ∧ kept c ps w w'.
Proof.
  revert w. induction acts as [|a acts IH]; intros w Hw Hc Hall.
  - exists w. split; [done|]. split; [done|]. split; [done | apply kept_refl].
  - apply Forall_cons in Hall as [[Ha Hsub] Hall].
    destruct (step_kept a c w Hw Hc Ha) as (w1 & E1 & Hw1 & K1).
    assert (circle w1 = Some c) as Hc1 by (destruct K1 as (-> & _); done).
    destruct (IH w1 Hw1 Hc1 Hall) as (w2 & E2 & Hw2 & Hc2 & K2).
    exists w2. cbn [run]. rewrite (bind_ok _ _ _ _ _ E1).
    split; [done|]. split; [done|]. split; [done|].
    eapply kept_trans; [|done]. by eapply kept_weaken.
Qed.

Lemma writes_within (a : @action num) :
  writes a ⊆ ["display"; "background"; "top"; "left"].
Proof. destruct a; cbn; set_unfold; tauto. Qed.

(** X6: on an existing indicator every operation but [destroyCircle], and
    every event, assigns only its own style properties of the indicator:
    the other properties, the other nodes, the tree, the listeners and
    both variables are as before. *)
Theorem operations_write_their_properties_only (w : world num) a c :
  reachable w → circle w = Some c → a ≠ CallDestroy →
  ∃ w', step a w = Ok tt w' ∧ kept c (writes a) w w'.
Proof.
  intros Hw%reachable_wf Hc Ha.
  destruct (step_kept a c w Hw Hc Ha) as (w' & E & _ & K). eauto.
Qed.

(** ** Appearance *)

Lemma showCircle_created t v (w : world num) :
  wf w → circle w = None →
  ∃ w' c, showCircle t v w = Ok tt w' ∧ wf w' ∧ circle w' = Some c ∧
          ∀ p, styleOf c p w' = createdStyle v (layout w t) !! p.
Proof.
  intros Hw Hc.
  destruct (createGlowingMovingCircle_new t (Some (orBlue v)) w Hw Hc)
    as (w' & E & C & _ & _ & _ & _ & _ & _ & _ & n & En & _ & _ & Sn).
  exists w', (S (nextRef w)). rewrite showCircle_absent by done.
  split; [done|]. split; [by eapply createGlowingMovingCircle_wf|]. split; [done|].
  intros p. unfold styleOf, createdStyle. by rewrite En, Sn.
Qed.

(** X7: the glow and the other visual constants are those of the creating
    [showCircle]: until the indicator is destroyed no operation and no
    event changes any style property but display, background, top and
    left, so the box-shadow stays that of the creation color whatever
    colors later calls pass. *)
Theorem appearance_fixed_at_creation (w : world num) t v post :
  reachable w → circle w = None →
  Forall (λ a, a ≠ CallDestroy) post →
  ∃ w1 w2 c,
    showCircle t v w = Ok tt w1 ∧ circle w1 = Some c ∧
    run post w1 = Ok tt w2 ∧ circle w2 = Some c ∧
    (∀ p, p ∉ ["display"; "background"; "top"; "left"] →
          styleOf c p w2 = circleStyle (orBlue v) !! p) ∧
    styleOf c "boxShadow" w2 = Some (Css (glowOf (orBlue v))).
Proof.
  intros Hw%reachable_wf Hc Hpost.
  destruct (showCircle_created t v w Hw Hc) as (w1 & c & E1 & Hw1 & C1 & S1).
  assert (Forall (λ a : @action num, a ≠ CallDestroy ∧
                    writes a ⊆ ["display"; "background"; "top"; "left"]) post) as Hall.
  { eapply Forall_impl; [exact Hpost|]. intros a Ha. split; [done | apply writes_within]. }
  destruct (run_kept post c _ w1 Hw1 C1 Hall) as (w2 & E2 & _ & C2 & K).
  destruct K as (_ & _ & _ & _ & _ & _ & K).
  assert (∀ p, p ∉ ["display"; "background"; "top"; "left"] →
               styleOf c p w2 = circleStyle (orBlue v) !! p) as Hfix.
  { intros p Hp. rewrite K, S1 by done. unfold createdStyle.
    rewrite !lookup_insert_ne; [done|..]; intros <-; apply Hp; set_unfold; tauto. }
  exists w1, w2, c. split_and!; try done.
  rewrite Hfix; [by style_lookup|]. set_unfold. intuition discriminate.
Qed.

(** X8: the background is that of the latest [showCircle]: hiding, events
    and layout changes leave it alone. *)
Theorem background_follows_last_show (w : world num) t v post :
  reachable w →
  Forall (λ a, a ≠ CallDestroy ∧ ∀ t' v', a ≠ CallShow t' v') post →
  ∃ w1 w2 c,
    showCircle t v w = Ok tt w1 ∧ circle w1 = Some c ∧
    run post w1 = Ok tt w2 ∧ circle w2 = Some c ∧
    styleOf c "background" w2 = Some (Css (gradientOf (orBlue v))).
Proof.
  intros Hw%reachable_wf Hpost.
  destruct (showCircle_shown t v w Hw) as (w1 & c & E1 & Hw1 & C1 & _ & _ & _ & _ & B1 & _).
  assert (Forall (λ a : @action num, a ≠ CallDestroy ∧
                    writes a ⊆ ["display"; "top"; "left"]) post) as Hall.
  { eapply Forall_impl; [exact Hpost|]. intros a [Ha Hs]. split; [done|].
    destruct a as [t' v'| | | |]; cbn; [by destruct (Hs t' v')|..]; set_unfold; tauto. }
  destruct (run_kept post c _ w1 Hw1 C1 Hall) as (w2 & E2 & _ & C2 & K).
  destruct K as (_ & _ & _ & _ & _ & _ & K).
  exists w1, w2, c. split_and!; try done.
  rewrite K; [done|]. set_unfold. intuition discriminate.
Qed.

(** ** The target the listeners follow *)

Lemma anchored_listeners t (w w' : world num) :
  listeners w' = listeners w → anchored t w → anchored t w'.
Proof. intros L Ha ty Hty. unfold listenersFor. rewrite L. by apply Ha. Qed.

Lemma run_creationTarget acts cur (w0 : world num) :
  wf w0 →
  (cur = None ↔ circle w0 = None) →
  (∀ t, cur = Some t → anchored t w0) →
  ∃ w, run acts w0 = Ok tt w ∧ wf w ∧
       (creationTarget cur acts = None ↔ circle w = None) ∧
       (∀ t, creationTarget cur acts = Some t → anchored t w).
Proof.
  revert cur w0. induction acts as [|a acts IH]; intros cur w0 Hw Hcur Hanc.
  - exists w0. by split_and!.
  - destruct (step_shape a w0 Hw) as (w1 & E1 & Hw1 & S1).
    assert (∃ cur1, (creationTarget cur (a :: acts) = creationTarget cur1 acts) ∧
                    (cur1 = None ↔ circle w1 = None) ∧
                    (∀ t, cur1 = Some t → anchored t w1)) as (cur1 & Ec & Hcur1 & Hanc1).
    { destruct a as [t v| | |ty|f]; cbn [creationTarget].
      - destruct (circle w0) as [c|] eqn:Hc; destruct S1 as [C1 L1].
        + destruct cur as [t0|]; [|discriminate (proj1 Hcur eq_refl)].
          exists (Some t0). split; [done|]. split; [by rewrite C1|].
          intros t1 [= <-]. by eapply anchored_listeners, Hanc.
        + rewrite (proj2 Hcur eq_refl). exists (Some t).
          split; [done|]. split; [by rewrite C1|].
          intros t1 [= <-] ty Hty.
          by eapply listenersFor_registered.
      - destruct S1 as [C1 L1]. exists cur. split; [done|]. rewrite C1.
        split; [done|]. intros t Ht. by eapply anchored_listeners, Hanc.
      - destruct S1 as [C1 L1]. exists None. by rewrite C1.
      - destruct S1 as [C1 L1]. exists cur. split; [done|]. rewrite C1.
        split; [done|]. intros t Ht. by eapply anchored_listeners, Hanc.
      - destruct S1 as [C1 L1]. exists cur. split; [done|]. rewrite C1.
        split; [done|]. intros t Ht. by eapply anchored_listeners, Hanc. }
    destruct (IH cur1 w1 Hw1 Hcur1 Hanc1) as (w & E & Hw' & Hc' & Ha').
    exists w. cbn [run]. rewrite (bind_ok _ _ _ _ _ E1), Ec. by split_and!.
Qed.

(** X9: the handle exists after a run exactly when some [showCircle] comes
    after the last [destroyCircle]. *)
Theorem handle_exists_iff_created (lay : target → DOMRect num) acts :
  ∃ w, run acts (init lay) = Ok tt w ∧
       (circle w = None ↔ creationTarget None acts = None).
Proof.
  destruct (run_creationTarget acts None (init lay) (wf_init lay))
    as (w & E & _ & Hc & _); [done..|].
  exists w. split; [done|]. by symmetry.
Qed.

(** X10: after any run that ends with a handle, a resize or scroll event puts
    the indicator on the centre of the target of the [showCircle] call
    that created this handle, whatever targets later calls were given
    and whatever listeners earlier indicators left behind. *)
Theorem events_follow_creation_target (lay : target → DOMRect num) acts t ty :
  creationTarget None acts = Some t →
  ty = "resize" ∨ ty = "scroll" →
  ∃ w w' c,
    run acts (init lay) = Ok tt w ∧ circle w = Some c ∧
    dispatchEvent ty w = Ok tt w' ∧
    styleOf c "top" w' = Some (Px (centerTop (layout w t))) ∧
    styleOf c "left" w' = Some (Px (centerLeft (layout w t))).
Proof.
  intros Ht Hty.
  destruct (run_creationTarget acts None (init lay) (wf_init lay))
    as (w & E & Hw & Hc & Ha); [done..|].
  destruct (circle w) as [c|] eqn:Hcw; [|rewrite (proj2 Hc eq_refl) in Ht; done].
  destruct (dispatchEvent_anchored ty t c w Hw Hcw (Ha t Ht) Hty)
    as (w' & E' & _ & T & L).
  by exists w, w', c.
Qed.

(** X11: hiding does not stop the tracking: a hidden indicator is still moved
    by resize and scroll events, and stays hidden. *)
Theorem hidden_indicator_keeps_tracking (lay : target → DOMRect num) acts t ty :
  creationTarget None acts = Some t →
  ty = "resize" ∨ ty = "scroll" →
  ∃ w w1 w2 c,
    run acts (init lay) = Ok tt w ∧ circle w = Some c ∧
    hideCircle w = Ok tt w1 ∧ dispatchEvent ty w1 = Ok tt w2 ∧
    styleOf c "display" w2 = Some (Css "none") ∧
    styleOf c "top" w2 = Some (Px (centerTop (layout w t))) ∧
    styleOf c "left" w2 = Some (Px (centerLeft (layout w t))).
Proof.
  intros Ht Hty.
  destruct (run_creationTarget acts None (init lay) (wf_init lay))
    as (w & E & Hw & Hc & Ha); [done..|].
  destruct (circle w) as [c|] eqn:Hcw; [|rewrite (proj2 Hc eq_refl) in Ht; done].
  destruct (hideCircle_spec w Hw) as (w1 & E1 & R1 & D1).
  pose proof (wf_restyled _ _ _ Hw R1) as Hw1.
  destruct R1 as (C1 & _ & L1 & Ly1 & _). rewrite Hcw in C1.
  pose proof (anchored_listeners t w w1 L1 (Ha t Ht)) as Ha1.
  destruct (dispatchEvent_anchored ty t c w1 Hw1 C1 Ha1 Hty)
    as (w2 & E2 & R2 & T & L).
  destruct R2 as (_ & _ & _ & _ & _ & _ & _ & S2).
  exists w, w1, w2, c. rewrite Ly1 in T, L. split_and!; try done.
  rewrite S2; [by apply D1|]. set_unfold. intuition discriminate.
Qed.

(** ** Repeating a call *)

Lemma node_restyle_id c n s' (w : world num) :
  nodes w !! c = Some n → s' = style n →
  with_nodes (<[c := with_style s' n]> (nodes w)) w = w.
Proof.
  intros En ->. destruct w as [ci ss m ls lay nx]. norm.
  replace (with_style (style n) n) with n by (by destruct n).
  by rewrite insert_id.
Qed.

Lemma styleOf_node c p n (w : world num) :
  nodes w !! c = Some n → styleOf c p w = style n !! p.
Proof. intros En. unfold styleOf. by rewrite En. Qed.

(** X12: [showCircle] is idempotent: a second call with the same arguments,
    the layout being the same, returns the world unchanged. *)
Theorem showCircle_idempotent (w : world num) t v :
  reachable w →
  ∃ w1, showCircle t v w = Ok tt w1 ∧ showCircle t v w1 = Ok tt w1.
Proof.
  intros Hw%reachable_wf.
  destruct (showCircle_shown t v w Hw)
    as (w1 & c & E1 & Hw1 & C1 & _ & _ & Ly & D & B & T & L).
  destruct (wf_circle_node _ _ Hw1 C1) as [n En].
  rewrite (styleOf_node _ _ _ _ En) in D. rewrite (styleOf_node _ _ _ _ En) in B.
  rewrite (styleOf_node _ _ _ _ En) in T. rewrite (styleOf_node _ _ _ _ En) in L.
  exists w1. split; [done|].
  rewrite (showCircle_ok t v c n w1 C1 En). f_equal.
  apply node_restyle_id; [done|]. rewrite Ly.
  rewrite (insert_id (style n) "display") by done.
  rewrite (insert_id (style n) "background") by done.
  rewrite (insert_id (style n) "top") by done.
  by rewrite (insert_id (style n) "left").
Qed.

(** X13: [hideCircle] is idempotent. *)
Theorem hideCircle_idempotent (w : world num) :
  reachable w →
  ∃ w1, hideCircle w = Ok tt w1 ∧ hideCircle w1 = Ok tt w1.
Proof.
  intros Hw%reachable_wf.
  destruct (hideCircle_spec w Hw) as (w1 & E1 & R & D).
  pose proof (wf_restyled _ _ _ Hw R) as Hw1.
  exists w1. split; [done|].
  destruct (circle w1) as [c|] eqn:C1; [|by apply hideCircle_absent].
  destruct (wf_circle_node _ _ Hw1 C1) as [n En].
  assert (circle w = Some c) as Hc by (destruct R as (<- & _); done).
  specialize (D c Hc). rewrite (styleOf_node _ _ _ _ En) in D.
  rewrite (hideCircle_ok c n w1 C1 En). f_equal.
  apply node_restyle_id; [done|]. by rewrite insert_id.
Qed.

(** ** What a creating call builds *)

Lemma createGlowingMovingCircle_built t color (w : world num) :
  wf w → circle w = None →
  ∃ w', createGlowingMovingCircle t color w = Ok tt w' ∧
    nodes w' !! nextRef w
    = Some (mkNode "style"
              (<["innerHTML" := glowKeyframes]> (<["type" := "text/css"]> ∅)) ∅ []) ∧
    nodes w' !! S (nextRef w)
    = Some (mkNode "div" ∅ (createdStyle color (layout w t)) [S (S (nextRef w))]) ∧
    nodes w' !! S (S (nextRef w))
    = Some (mkNode "div" (<["innerHTML" := "✦"]> ∅)
              (<["color" := Css "white"]> (<["fontSize" := Css "24px"]> ∅)) []).
Proof.
  intros Hw Hc.
  destruct (wf_head_node _ Hw) as (hd & Ehd & Chd).
  destruct (wf_body_node _ Hw) as (bd & Ebd & Cbd).
  pose proof (wf_nextRef _ Hw) as Hnx.
  pose proof (proj1 (wf_both _ Hw) Hc) as Hs.
  pose proof (wf_listeners_fresh _ Hw) as Hls.
  destruct w as [ci ss m ls lay nx]. norm. subst ci ss. cbn in Chd, Cbd.
  eexists. split.
  { unfold createGlowingMovingCircle. step_prim.
    step_with ltac:(eapply addGlowAnimationStyles_absent; [reflexivity | on_node | refs_differ ]).
    step_with ltac:(apply createCircleElement_ok).
    step_prim.
    step_with ltac:(apply createIconElement_ok).
    do 2 step_prim.
    step_with ltac:(eapply appendChild_ok; on_node).
    step_with ltac:(eapply updateCirclePosition_ok; [reflexivity | on_node]).
    do 2 step_prim.
    step_with ltac:(eapply appendChild_ok; on_node).
    step_prim.
    step_with ltac:(apply addEventListener_fresh; norm; cbn [fid]; intros e He; apply Hls in He; lia).
    step_prim.
    apply addEventListener_fresh. norm. cbn [fid]. intros e He.
    apply elem_of_app in He as [He|He%list_elem_of_singleton].
    - apply Hls in He. lia.
    - subst e. cbn. lia. }
  norm. unfold createdStyle. cbn [orBlue]. split_and!.
  - find_node. simpl. by filters.
  - find_node. simpl. by filters.
  - find_node. simpl. by filters.
Qed.

(** X14: a creating [showCircle] builds three elements: the style element,
    of type text/css and holding the keyframes, the only child of the
    head; the indicator, a div with the creation style, the only child
    of the body; and the icon, a white 24px star, the indicator's only
    child, itself without children. *)
Theorem creation_builds_three_elements (w : world num) t v :
  reachable w → circle w = None →
  ∃ w' s c i,
    showCircle t v w = Ok tt w' ∧
    styleSheet w' = Some s ∧ circle w' = Some c ∧
    inHead w' = [s] ∧ inBody w' = [c] ∧
    nodes w' !! s
    = Some (mkNode "style"
              (<["innerHTML" := glowKeyframes]> (<["type" := "text/css"]> ∅)) ∅ []) ∧
    nodes w' !! c = Some (mkNode "div" ∅ (createdStyle v (layout w t)) [i]) ∧
    nodes w' !! i
    = Some (mkNode "div" (<["innerHTML" := "✦"]> ∅)
              (<["color" := Css "white"]> (<["fontSize" := Css "24px"]> ∅)) []).
Proof.
  intros Hw%reachable_wf Hc.
  destruct (createGlowingMovingCircle_new t (Some (orBlue v)) w Hw Hc)
    as (w' & E & C & S' & _ & _ & _ & _ & Hd & Bd & _).
  destruct (createGlowingMovingCircle_built t (Some (orBlue v)) w Hw Hc)
    as (w2 & E2 & Ns & Nc & Ni).
  rewrite E in E2. injection E2 as <-.
  exists w', (nextRef w), (S (nextRef w)), (S (S (nextRef w))).
  rewrite showCircle_absent by done. by split_and!.
Qed.

(** ** The plain module against the color module *)

Lemma Main_showCircle_absent t (w : world num) :
  circle w = None → Main.showCircle t w = createGlowingMovingCircle t None w.
Proof.
  intros E. unfold Main.showCircle.
  erewrite bind_ok by reflexivity. by rewrite E.
Qed.

Lemma Main_showCircle_ok t c n (w : world num) :
  circle w = Some c → nodes w !! c = Some n →
  Main.showCircle t w
  = Ok tt (with_nodes
             (<[c := with_style
                       (<["left" := Px (centerLeft (layout w t))]>
                          (<["top" := Px (centerTop (layout w t))]>
                             (<["display" := Css "flex"]> (style n)))) n]>
                (nodes w)) w).
Proof.
  destruct w as [ci ss m ls lay nx]. norm. intros -> En.
  unfold Main.showCircle. do 3 step_prim. step_style.
  change (Main.updateCirclePosition t) with (updateCirclePosition t).
  erewrite updateCirclePosition_ok by (first [reflexivity | on_node]).
  norm. by rewrite insert_insert_eq.
Qed.

Lemma Main_step_eq a (w : world num) :
  wf w →
  (∀ c, circle w = Some c →
        styleOf c "background" w
        = Some (Css "radial-gradient(circle, #5f9eff, #003f9f)")) →
  Main.step a w = step (withoutColor a) w.
Proof.
  intros Hw Hb. destruct a as [t| | |ty|f]; try reflexivity.
  cbn [Main.step step withoutColor].
  destruct (circle w) as [c|] eqn:Hc.
  - destruct (wf_circle_node _ _ Hw Hc) as [n En].
    specialize (Hb c eq_refl). rewrite (styleOf_node _ _ _ _ En) in Hb.
    rewrite (Main_showCircle_ok t c n w Hc En), (showCircle_ok t None c n w Hc En).
    do 4 f_equal. cbn.
    rewrite (insert_insert_ne (style n) "background" "display") by done.
    by rewrite (insert_id (style n) "background").
  - rewrite Main_showCircle_absent, showCircle_absent by done. reflexivity.
Qed.

Lemma plain_run acts (w : world num) :
  wf w →
  (∀ c, circle w = Some c →
        styleOf c "background" w
        = Some (Css "radial-gradient(circle, #5f9eff, #003f9f)") ∧
        styleOf c "boxShadow" w
        = Some (Css "0 0 15px 5px rgba(0, 63, 159, 0.5), 0 0 30px 15px rgba(0, 63, 159, 0.3)")) →
  ∃ w', Main.run acts w = Ok tt w' ∧
        run (withoutColor <$> acts) w = Ok tt w' ∧ wf w' ∧
        ∀ c, circle w' = Some c →
             styleOf c "background" w'
             = Some (Css "radial-gradient(circle, #5f9eff, #003f9f)") ∧
             styleOf c "boxShadow" w'
             = Some (Css "0 0 15px 5px rgba(0, 63, 159, 0.5), 0 0 30px 15px rgba(0, 63, 159, 0.3)").
Proof.
  revert w. induction acts as [|a acts IH]; intros w Hw Hb.
  - by exists w.
  - pose proof (Main_step_eq a w Hw (λ c Hc, proj1 (Hb c Hc))) as Eq.
    destruct (step_shape (withoutColor a) w Hw) as (w1 & E1 & Hw1 & S1).
    assert (∀ c, circle w1 = Some c →
                 styleOf c "background" w1
                 = Some (Css "radial-gradient(circle, #5f9eff, #003f9f)") ∧
                 styleOf c "boxShadow" w1
                 = Some (Css "0 0 15px 5px rgba(0, 63, 159, 0.5), 0 0 30px 15px rgba(0, 63, 159, 0.3)"))
      as Hb1.
    { intros c1 Hc1. destruct (circle w) as [c|] eqn:Hc.
      - destruct (step_kept (withoutColor a) c w Hw Hc) as (w2 & E2 & _ & K).
        { intros Ea. rewrite Ea in S1. destruct S1 as [S1 _]. congruence. }
        rewrite E1 in E2. injection E2 as <-.
        destruct K as (C & _ & _ & _ & _ & _ & K).
        rewrite C, Hc in Hc1. injection Hc1 as <-.
        destruct (Hb c eq_refl) as [B G]. split.
        + destruct a as [t| | |ty|f]; cbn [withoutColor writes step] in *;
            try (rewrite K; [done | set_unfold; intuition discriminate]).
          destruct (showCircle_shown t None w Hw)
            as (w2 & c2 & E2 & _ & C2 & _ & _ & _ & _ & B2 & _).
          rewrite E1 in E2. injection E2 as <-.
          rewrite C, Hc in C2. by injection C2 as <-.
        + rewrite K; [done|].
          destruct a; cbn; set_unfold; intuition discriminate.
      - destruct a as [t| | |ty|f]; cbn [withoutColor step] in *;
          try (destruct S1 as [S1 _]; congruence).
        destruct (showCircle_created t None w Hw Hc) as (w2 & c2 & E2 & _ & C2 & St).
        rewrite E1 in E2. injection E2 as <-.
        rewrite C2 in Hc1. injection Hc1 as <-.
        rewrite !St. unfold createdStyle. cbn [orBlue]. split; by style_lookup. }
    destruct (IH w1 Hw1 Hb1) as (w2 & M2 & R2 & Hw2 & Hb2).
    exists w2. cbn [Main.run run fmap list_fmap].
    rewrite (bind_ok _ _ _ _ _ E1). rewrite <- Eq in E1.
    rewrite (bind_ok _ _ _ _ _ E1). by split_and!.
Qed.

(** X17: the plain module is the color module called without a color: from
    the freshly loaded state every sequence of calls, events and layout
    changes leads both to the same world. *)
Theorem plain_module_is_colorless_calls (lay : target → DOMRect num) acts :
  ∃ w, Main.run acts (init lay) = Ok tt w ∧
       run (withoutColor <$> acts) (init lay) = Ok tt w.
Proof.
  destruct (plain_run acts (init lay) (wf_init lay)) as (w & M1 & R1 & _); [done|].
  eauto.
Qed.

(** X18: in the plain module the indicator is blue throughout: whenever there
    is a handle its background is the blue gradient and its box-shadow
    the blue glow. *)
Theorem plain_indicator_is_blue (lay : target → DOMRect num) acts :
  ∃ w, Main.run acts (init lay) = Ok tt w ∧
       ∀ c, circle w = Some c →
            styleOf c "background" w
            = Some (Css "radial-gradient(circle, #5f9eff, #003f9f)") ∧
            styleOf c "boxShadow" w
            = Some (Css "0 0 15px 5px rgba(0, 63, 159, 0.5), 0 0 30px 15px rgba(0, 63, 159, 0.3)").
Proof.
  destruct (plain_run acts (init lay) (wf_init lay)) as (w & M1 & _ & _ & B); [done|].
  eauto.
Qed.

(** ** An event as one recomputation *)

Lemma callAll_on_indicator fs c n (w : world num) s1 :
  circle w = Some c →
  (∀ p, p ∉ ["top"; "left"] → s1 !! p = style n !! p) →
  ∃ s2, callAll fs (with_nodes (<[c := with_style s1 n]> (nodes w)) w)
        = Ok tt (with_nodes (<[c := with_style s2 n]> (nodes w)) w) ∧
        ∀ p, p ∉ ["top"; "left"] → s2 !! p = style n !! p.
Proof.
  intros Hc. revert s1. induction fs as [|f fs IH]; intros s1 Hs1.
  - by exists s1.
  - cbn [callAll]. unfold callListener. destruct (fbody f) as [t|].
    + destruct (IH (<["left" := Px (centerLeft (layout w t))]>
                      (<["top" := Px (centerTop (layout w t))]> s1)))
        as (s2 & E2 & Hs2).
      { intros p Hp. rewrite !lookup_insert_ne; [by apply Hs1|..];
          intros <-; apply Hp; set_unfold; tauto. }
      exists s2. split; [|done]. erewrite bind_ok; [exact E2|].
      erewrite updateCirclePosition_ok;
        [|by destruct w|destruct w; norm; apply lookup_insert_eq].
      destruct w. norm. by rewrite insert_insert_eq.
    + destruct (IH s1 Hs1) as (s2 & E2 & Hs2). exists s2. split; [|done].
      by erewrite bind_ok.
Qed.

Lemma callAll_collapses fs f t c n (w : world num) :
  circle w = Some c → nodes w !! c = Some n → fbody f = RecomputeFor t →
  callAll (fs ++ [f]) w = updateCirclePosition t w.
Proof.
  intros Hc En Hf.
  destruct (callAll_on_indicator fs c n w (style n) Hc) as (s2 & E2 & Hs2); [done|].
  rewrite (node_restyle_id c n (style n) w En eq_refl) in E2.
  rewrite (updateCirclePosition_ok t c n w Hc En).
  eapply callAll_app; [exact E2|].
  cbn [callAll]. unfold callListener. rewrite Hf.
  erewrite bind_ok; [reflexivity|].
  erewrite updateCirclePosition_ok;
    [|by destruct w|destruct w; norm; apply lookup_insert_eq].
  destruct w, n. unfold with_nodes, with_style. cbn. rewrite insert_insert_eq.
  f_equal. f_equal. f_equal. f_equal. apply map_eq. intros p.
  destruct (decide (p = "left")) as [->|Hl]; [by rewrite !lookup_insert_eq|].
  rewrite !(lookup_insert_ne _ "left") by done.
  destruct (decide (p = "top")) as [->|Ht]; [by rewrite !lookup_insert_eq|].
  rewrite !(lookup_insert_ne _ "top") by done.
  apply Hs2. set_unfold. intuition congruence.
Qed.

(** X15: a resize or scroll event has exactly the effect of one call of
    [updateCirclePosition] on the target of the creating [showCircle],
    however many listeners are registered; and the same event once more
    changes nothing. *)
Theorem event_is_one_recomputation (lay : target → DOMRect num) acts t ty :
  creationTarget None acts = Some t →
  ty = "resize" ∨ ty = "scroll" →
  ∃ w w',
    run acts (init lay) = Ok tt w ∧
    dispatchEvent ty w = Ok tt w' ∧
    updateCirclePosition t w = Ok tt w' ∧
    dispatchEvent ty w' = Ok tt w'.
Proof.
  intros Ht Hty.
  destruct (run_creationTarget acts None (init lay) (wf_init lay))
    as (w & E & Hw & Hc & Ha); [done..|].
  destruct (circle w) as [c|] eqn:Hcw; [|rewrite (proj2 Hc eq_refl) in Ht; done].
  destruct (wf_circle_node _ _ Hw Hcw) as [n En].
  destruct (Ha t Ht ty Hty) as (fs & f & Efs & Hf).
  assert (dispatchEvent ty w = updateCirclePosition t w) as Ed.
  { unfold dispatchEvent. fold (listenersFor ty w). rewrite Efs.
    by eapply callAll_collapses. }
  destruct (updateCirclePosition_spec t w Hw) as (w' & E' & R & P).
  pose proof (wf_restyled _ _ _ Hw R) as Hw'.
  destruct (P c Hcw) as [T L].
  destruct R as (C & _ & Ls & Ly & _). rewrite Hcw in C.
  destruct (wf_circle_node _ _ Hw' C) as [n' En'].
  exists w, w'. split; [done|]. split; [by rewrite Ed|]. split; [done|].
  unfold dispatchEvent. fold (listenersFor ty w'). unfold listenersFor.
  rewrite Ls. fold (listenersFor ty w). rewrite Efs.
  rewrite (callAll_collapses fs f t c n' w' C En' Hf).
  rewrite (updateCirclePosition_ok t c n' w' C En'). f_equal.
  rewrite (styleOf_node _ _ _ _ En') in T. rewrite (styleOf_node _ _ _ _ En') in L.
  apply node_restyle_id; [done|]. rewrite Ly.
  rewrite (insert_id (style n') "top") by done.
  by rewrite (insert_id (style n') "left").
Qed.

(** X16: hiding leaves no trace once the indicator is shown again:
    [hideCircle] followed by [showCircle] gives the world [showCircle]
    alone gives. *)
Theorem hide_then_show_is_show (w : world num) t v :
  reachable w →
  ∃ w1 w2, hideCircle w = Ok tt w1 ∧ showCircle t v w1 = Ok tt w2 ∧
           showCircle t v w = Ok tt w2.
Proof.
  intros Hw%reachable_wf.
  destruct (showCircle_total t v w Hw) as (w2 & E2 & _).
  destruct (circle w) as [c|] eqn:Hc.
  - destruct (wf_circle_node _ _ Hw Hc) as [n En].
    eexists _, w2. split; [by apply hideCircle_ok|]. split; [|done].
    rewrite <- E2. rewrite (showCircle_ok t v c n w Hc En).
    erewrite showCircle_ok;
      [|by destruct w|destruct w; norm; apply lookup_insert_eq].
    destruct w. norm. by rewrite !insert_insert_eq.
  - exists w, w2. split; [by apply hideCircle_absent|]. done.
Qed.

End Properties.

(** ** The module at work on the concrete page *)

Example purpleShown_state :
  circle purpleShown = Some 3 ∧ styleSheet purpleShown = Some 2 ∧
  inBody purpleShown = [3] ∧ inHead purpleShown = [2] ∧
  childrenOf 3 purpleShown = [4] ∧
  listeners purpleShown
  = [("resize", mkFun 5 (RecomputeFor 1)); ("scroll", mkFun 6 (RecomputeFor 1))] ∧
  styleOf 3 "top" purpleShown = Some (Px (1 + 40 / 2)%Q) ∧
  styleOf 3 "left" purpleShown = Some (Px (10 + 100 / 2)%Q) ∧
  styleOf 3 "background" purpleShown
  = Some (Css "radial-gradient(circle, #9c27b0, #6a0080)").
Proof. vm_compute. by repeat split. Qed.

Example loaded_state :
  circle loaded = None ∧ styleSheet loaded = None ∧
  inBody loaded = [] ∧ inHead loaded = [] ∧ listeners loaded = [] ∧
  hideCircle loaded = Ok tt loaded.
Proof. vm_compute. by repeat split. Qed.

Example destroyed_state :
  circle destroyed = None ∧ styleSheet destroyed = None ∧
  inBody destroyed = [] ∧ inHead destroyed = [] ∧
  listeners destroyed
  = [("resize", mkFun 5 (RecomputeFor 1)); ("scroll", mkFun 6 (RecomputeFor 1))].
Proof. vm_compute. by repeat split. Qed.

(** Removal does work on the function object that was registered: what
    [destroyCircle] lacks is a reference to it. *)
Example removal_by_identity :
  ∃ w, removeEventListener "resize" (mkFun 5 (RecomputeFor 1)) purpleShown = Ok tt w ∧
       listeners w = [("scroll", mkFun 6 (RecomputeFor 1))].
Proof. eexists. split; [reflexivity|]. vm_compute. reflexivity. Qed.

(** A re-show on target 2 moves the indicator there; the next resize
    brings it back to target 1. *)
Example resize_returns_to_first_target :
  styleOf 3 "top" (after [CallShow 1 None; CallShow 2 None])
  = Some (Px (2 + 40 / 2)%Q) ∧
  styleOf 3 "top" (after [CallShow 1 None; CallShow 2 None; Fire "resize"])
  = Some (Px (1 + 40 / 2)%Q).
Proof. vm_compute. by split. Qed.

(** ** Instances of the theorems that carry hypotheses *)

Lemma C2_reshow_keeps_glow_witness :
  reachable purpleShown ∧ circle purpleShown = Some 3 ∧
  ∃ w', showCircle 2 (Some "GRAY") purpleShown = Ok tt w' ∧
        styleOf 3 "background" w'
        = Some (Css "radial-gradient(circle, #c0c0c0, #808080)") ∧
        styleOf 3 "top" w' = Some (Px (2 + 40 / 2)%Q) ∧
        styleOf 3 "left" w' = Some (Px (20 + 100 / 2)%Q) ∧
        styleOf 3 "boxShadow" w'
        = Some (Css "0 0 15px 5px rgba(156, 39, 176, 0.6), 0 0 30px 15px rgba(106, 0, 128, 0.3)").
Proof.
  assert (reachable purpleShown) as Hr.
  { exists lay0, [CallShow 1 (Some "PURPLE")]. vm_compute. reflexivity. }
  split; [exact Hr|]. split; [reflexivity|].
  exact (C2_reshow_keeps_glow purpleShown 3 2 (Some "GRAY") Hr eq_refl).
Defined.

Lemma C3_destroy_keeps_listeners_witness :
  reachable destroyed ∧
  (∃ w', destroyCircle destroyed = Ok tt w' ∧ listeners w' = listeners destroyed) ∧
  (circle destroyed = None →
   ∃ w1 w2 f g,
     showCircle 2 None destroyed = Ok tt w1 ∧
     listeners w1 = listeners destroyed ++ [("resize", f); ("scroll", g)] ∧
     fbody f = RecomputeFor 2 ∧ fbody g = RecomputeFor 2 ∧
     destroyCircle w1 = Ok tt w2 ∧
     listeners w2 = listeners destroyed ++ [("resize", f); ("scroll", g)]).
Proof.
  assert (reachable destroyed) as Hr.
  { exists lay0, [CallShow 1 None; CallDestroy]. vm_compute. reflexivity. }
  split; [exact Hr|].
  exact (C3_destroy_keeps_listeners destroyed 2 None Hr).
Defined.

Lemma C4_default_is_blue_witness :
  reachable purpleShown ∧ Some "unknown" ≠ Some "PURPLE" ∧ Some "unknown" ≠ Some "GRAY" ∧
  ∃ w' c, showCircle 1 (Some "unknown") purpleShown = Ok tt w' ∧
          showCircle 1 (Some "BLUE") purpleShown = Ok tt w' ∧
          circle w' = Some c ∧
          styleOf c "background" w'
          = Some (Css "radial-gradient(circle, #5f9eff, #003f9f)").
Proof.
  assert (reachable purpleShown) as Hr.
  { exists lay0, [CallShow 1 (Some "PURPLE")]. vm_compute. reflexivity. }
  assert (Some "unknown" ≠ Some "PURPLE") as Hp by discriminate.
  assert (Some "unknown" ≠ Some "GRAY") as Hg by discriminate.
  split; [exact Hr|]. split; [exact Hp|]. split; [exact Hg|].
  exact (C4_default_is_blue purpleShown 1 (Some "unknown") Hr Hp Hg).
Defined.

Lemma C5_position_is_center_witness :
  reachable purpleShown ∧ circle purpleShown = Some 3 ∧
  ∃ w', updateCirclePosition 7 purpleShown = Ok tt w' ∧
        styleOf 3 "top" w' = Some (Px (7 + 40 / 2)%Q) ∧
        styleOf 3 "left" w' = Some (Px (70 + 100 / 2)%Q).
Proof.
  assert (reachable purpleShown) as Hr.
  { exists lay0, [CallShow 1 (Some "PURPLE")]. vm_compute. reflexivity. }
  split; [exact Hr|]. split; [reflexivity|].
  exact (C5_position_is_center purpleShown 3 7 Hr eq_refl).
Defined.

Lemma C8_absent_noop_and_total_witness :
  reachable destroyed ∧
  (circle destroyed = None →
   hideCircle destroyed = Ok tt destroyed ∧
   ∃ w', destroyCircle destroyed = Ok tt w' ∧ sameObjects destroyed w') ∧
  (∀ t v, ∃ w', showCircle t v destroyed = Ok tt w') ∧
  (∃ w', hideCircle destroyed = Ok tt w') ∧
  (∃ w', destroyCircle destroyed = Ok tt w').
Proof.
  assert (reachable destroyed) as Hr.
  { exists lay0, [CallShow 1 None; CallDestroy]. vm_compute. reflexivity. }
  split; [exact Hr|].
  exact (C8_absent_noop_and_total destroyed Hr).
Defined.

Lemma C9_style_registered_once_witness :
  reachable purpleShown ∧
  (∀ s, styleSheet purpleShown = Some s →
        addGlowAnimationStyles purpleShown = Ok tt purpleShown) ∧
  (styleSheet purpleShown = None →
   ∀ t v, ∃ w' s, showCircle t v purpleShown = Ok tt w' ∧ styleSheet w' = Some s ∧
                  inHead w' = [s] ∧ (s ∉ dom (nodes purpleShown))) ∧
  (styleSheet purpleShown = None →
   ∀ a w', (∀ t v, a ≠ CallShow t v) → step a purpleShown = Ok tt w' →
           styleSheet w' = None ∧ inHead w' = []) ∧
  (∀ s a w', styleSheet purpleShown = Some s → a ≠ CallDestroy →
             step a purpleShown = Ok tt w' →
             styleSheet w' = Some s ∧ inHead w' = [s]) ∧
  length (inHead purpleShown) ≤ 1.
Proof.
  assert (reachable purpleShown) as Hr.
  { exists lay0, [CallShow 1 (Some "PURPLE")]. vm_compute. reflexivity. }
  split; [exact Hr|].
  exact (C9_style_registered_once purpleShown Hr).
Defined.

Lemma C10_listeners_keep_first_target_witness :
  reachable destroyed ∧ circle destroyed = None ∧
  Forall (λ a, a ≠ CallDestroy)
    [CallHide; Relayout (λ t, lay0 (3 * t)); CallShow 2 None; Fire "scroll"] ∧
  ("resize" = "resize" ∨ "resize" = "scroll") ∧
  ∃ w1 w2 w3 w4 c,
    showCircle 1 None destroyed = Ok tt w1 ∧
    showCircle 2 (Some "GRAY") w1 = Ok tt w2 ∧ circle w2 = Some c ∧
    styleOf c "top" w2 = Some (Px (centerTop (layout w2 2))) ∧
    styleOf c "left" w2 = Some (Px (centerLeft (layout w2 2))) ∧
    run [CallHide; Relayout (λ t, lay0 (3 * t)); CallShow 2 None; Fire "scroll"] w2
    = Ok tt w3 ∧
    dispatchEvent "resize" w3 = Ok tt w4 ∧ circle w4 = Some c ∧
    styleOf c "top" w4 = Some (Px (centerTop (layout w4 1))) ∧
    styleOf c "left" w4 = Some (Px (centerLeft (layout w4 1))).
Proof.
  assert (reachable destroyed) as Hr.
  { exists lay0, [CallShow 1 None; CallDestroy]. vm_compute. reflexivity. }
  assert (Forall (λ a : action, a ≠ CallDestroy)
            [CallHide; Relayout (λ t, lay0 (3 * t)); CallShow 2 None; Fire "scroll"])
    as Hpost by (repeat constructor; discriminate).
  assert ("resize" = "resize" ∨ "resize" = "scroll") as Hty by (left; reflexivity).
  split; [exact Hr|]. split; [reflexivity|]. split; [exact Hpost|]. split; [exact Hty|].
  exact (C10_listeners_keep_first_target destroyed 1 None 2 (Some "GRAY") _ "resize"
           Hr eq_refl Hpost Hty).
Defined.

(** The run of the last instance, evaluated: after the re-show the
    indicator sits on target 2, after the resize on target 1 as the new
    layout has it. *)
Example first_target_after_relayout :
  styleOf 10 "top"
    (after [CallShow 1 None; CallDestroy; CallShow 1 None; CallShow 2 (Some "GRAY")])
  = Some (Px (2 + 40 / 2)%Q) ∧
  styleOf 10 "top"
    (after [CallShow 1 None; CallDestroy; CallShow 1 None; CallShow 2 (Some "GRAY");
            CallHide; Relayout (λ t, lay0 (3 * t)); CallShow 2 None; Fire "scroll";
            Fire "resize"])
  = Some (Px (3 + 40 / 2)%Q).
Proof. vm_compute. by split. Qed.

(** ** Instances of the further properties *)

Lemma listeners_never_removed_witness :
  reachable purpleShown ∧
  ∃ w', run [CallDestroy; Fire "resize"; CallHide] purpleShown = Ok tt w' ∧
        listeners purpleShown `prefix_of` listeners w'.
Proof.
  assert (reachable purpleShown) as Hr.
  { exists lay0, [CallShow 1 (Some "PURPLE")]. vm_compute. reflexivity. }
  split; [exact Hr|].
  exact (listeners_never_removed purpleShown [CallDestroy; Fire "resize"; CallHide] Hr).
Defined.

Lemma event_without_handle_witness :
  circle destroyed = None ∧ dispatchEvent "resize" destroyed = Ok tt destroyed.
Proof.
  split; [reflexivity|].
  exact (event_without_handle destroyed "resize" eq_refl).
Defined.

Lemma listeners_are_recomputations_witness :
  reachable destroyed ∧
  Forall (λ e, (fst e = "resize" ∨ fst e = "scroll") ∧
               ∃ t, fbody (snd e) = RecomputeFor t) (listeners destroyed) ∧
  ∀ ty, ty ≠ "resize" → ty ≠ "scroll" → dispatchEvent ty destroyed = Ok tt destroyed.
Proof.
  assert (reachable destroyed) as Hr.
  { exists lay0, [CallShow 1 None; CallDestroy]. vm_compute. reflexivity. }
  split; [exact Hr|].
  exact (listeners_are_recomputations destroyed Hr).
Defined.

Lemma operations_write_their_properties_only_witness :
  reachable purpleShown ∧ circle purpleShown = Some 3 ∧
  @CallHide Q ≠ CallDestroy ∧
  ∃ w', step CallHide purpleShown = Ok tt w' ∧ kept 3 ["display"] purpleShown w'.
Proof.
  assert (reachable purpleShown) as Hr.
  { exists lay0, [CallShow 1 (Some "PURPLE")]. vm_compute. reflexivity. }
  assert (@CallHide Q ≠ CallDestroy) as Ha by discriminate.
  split; [exact Hr|]. split; [reflexivity|]. split; [exact Ha|].
  exact (operations_write_their_properties_only purpleShown CallHide 3 Hr eq_refl Ha).
Defined.

Lemma appearance_fixed_at_creation_witness :
  reachable destroyed ∧ circle destroyed = None ∧
  Forall (λ a : @action Q, a ≠ CallDestroy)
    [CallShow 1 (Some "GRAY"); CallHide; Fire "resize"] ∧
  ∃ w1 w2 c,
    showCircle 2 (Some "PURPLE") destroyed = Ok tt w1 ∧ circle w1 = Some c ∧
    run [CallShow 1 (Some "GRAY"); CallHide; Fire "resize"] w1 = Ok tt w2 ∧
    circle w2 = Some c ∧
    (∀ p, p ∉ ["display"; "background"; "top"; "left"] →
          styleOf c p w2 = circleStyle "PURPLE" !! p) ∧
    styleOf c "boxShadow" w2
    = Some (Css "0 0 15px 5px rgba(156, 39, 176, 0.6), 0 0 30px 15px rgba(106, 0, 128, 0.3)").
Proof.
  assert (reachable destroyed) as Hr.
  { exists lay0, [CallShow 1 None; CallDestroy]. vm_compute. reflexivity. }
  assert (Forall (λ a : @action Q, a ≠ CallDestroy)
            [CallShow 1 (Some "GRAY"); CallHide; Fire "resize"]) as Hpost
    by (repeat constructor; discriminate).
  split; [exact Hr|]. split; [reflexivity|]. split; [exact Hpost|].
  exact (appearance_fixed_at_creation destroyed 2 (Some "PURPLE") _ Hr eq_refl Hpost).
Defined.

Lemma background_follows_last_show_witness :
  reachable purpleShown ∧
  Forall (λ a : @action Q, a ≠ CallDestroy ∧ ∀ t' v', a ≠ CallShow t' v')
    [CallHide; Fire "scroll"] ∧
  ∃ w1 w2 c,
    showCircle 1 (Some "GRAY") purpleShown = Ok tt w1 ∧ circle w1 = Some c ∧
    run [CallHide; Fire "scroll"] w1 = Ok tt w2 ∧ circle w2 = Some c ∧
    styleOf c "background" w2
    = Some (Css "radial-gradient(circle, #c0c0c0, #808080)").
Proof.
  assert (reachable purpleShown) as Hr.
  { exists lay0, [CallShow 1 (Some "PURPLE")]. vm_compute. reflexivity. }
  assert (Forall (λ a : @action Q, a ≠ CallDestroy ∧ ∀ t' v', a ≠ CallShow t' v')
            [CallHide; Fire "scroll"]) as Hpost
    by (repeat constructor; discriminate).
  split; [exact Hr|]. split; [exact Hpost|].
  exact (background_follows_last_show purpleShown 1 (Some "GRAY") _ Hr Hpost).
Defined.

Lemma events_follow_creation_target_witness :
  creationTarget None [@CallShow Q 1 None; CallShow 2 None] = Some 1 ∧
  ("resize" = "resize" ∨ "resize" = "scroll") ∧
  ∃ w w' c,
    run [CallShow 1 None; CallShow 2 None] (init lay0) = Ok tt w ∧
    circle w = Some c ∧ dispatchEvent "resize" w = Ok tt w' ∧
    styleOf c "top" w' = Some (Px (centerTop (layout w 1))) ∧
    styleOf c "left" w' = Some (Px (centerLeft (layout w 1))).
Proof.
  assert ("resize" = "resize" ∨ "resize" = "scroll") as Hty by (left; reflexivity).
  split; [reflexivity|]. split; [exact Hty|].
  exact (events_follow_creation_target lay0 [CallShow 1 None; CallShow 2 None] 1
           "resize" eq_refl Hty).
Defined.

Lemma hidden_indicator_keeps_tracking_witness :
  creationTarget None [@CallShow Q 1 None; CallShow 2 None] = Some 1 ∧
  ("scroll" = "resize" ∨ "scroll" = "scroll") ∧
  ∃ w w1 w2 c,
    run [CallShow 1 None; CallShow 2 None] (init lay0) = Ok tt w ∧
    circle w = Some c ∧
    hideCircle w = Ok tt w1 ∧ dispatchEvent "scroll" w1 = Ok tt w2 ∧
    styleOf c "display" w2 = Some (Css "none") ∧
    styleOf c "top" w2 = Some (Px (centerTop (layout w 1))) ∧
    styleOf c "left" w2 = Some (Px (centerLeft (layout w 1))).
Proof.
  assert ("scroll" = "resize" ∨ "scroll" = "scroll") as Hty by (right; reflexivity).
  split; [reflexivity|]. split; [exact Hty|].
  exact (hidden_indicator_keeps_tracking lay0 [CallShow 1 None; CallShow 2 None] 1
           "scroll" eq_refl Hty).
Defined.

Lemma showCircle_idempotent_witness :
  reachable purpleShown ∧
  ∃ w1, showCircle 2 (Some "GRAY") purpleShown = Ok tt w1 ∧
        showCircle 2 (Some "GRAY") w1 = Ok tt w1.
Proof.
  assert (reachable purpleShown) as Hr.
  { exists lay0, [CallShow 1 (Some "PURPLE")]. vm_compute. reflexivity. }
  split; [exact Hr|].
  exact (showCircle_idempotent purpleShown 2 (Some "GRAY") Hr).
Defined.

Lemma hideCircle_idempotent_witness :
  reachable purpleShown ∧
  ∃ w1, hideCircle purpleShown = Ok tt w1 ∧ hideCircle w1 = Ok tt w1.
Proof.
  assert (reachable purpleShown) as Hr.
  { exists lay0, [CallShow 1 (Some "PURPLE")]. vm_compute. reflexivity. }
  split; [exact Hr|].
  exact (hideCircle_idempotent purpleShown Hr).
Defined.

Lemma creation_builds_three_elements_witness :
  reachable destroyed ∧ circle destroyed = None ∧
  ∃ w' s c i,
    showCircle 2 (Some "GRAY") destroyed = Ok tt w' ∧
    styleSheet w' = Some s ∧ circle w' = Some c ∧
    inHead w' = [s] ∧ inBody w' = [c] ∧
    nodes w' !! s
    = Some (mkNode "style"
              (<["innerHTML" := glowKeyframes]> (<["type" := "text/css"]> ∅)) ∅ []) ∧
    nodes w' !! c
    = Some (mkNode "div" ∅ (createdStyle (Some "GRAY") (lay0 2)) [i]) ∧
    nodes w' !! i
    = Some (mkNode "div" (<["innerHTML" := "✦"]> ∅)
              (<["color" := Css "white"]> (<["fontSize" := Css "24px"]> ∅)) []).
Proof.
  assert (reachable destroyed) as Hr.
  { exists lay0, [CallShow 1 None; CallDestroy]. vm_compute. reflexivity. }
  split; [exact Hr|]. split; [reflexivity|].
  exact (creation_builds_three_elements destroyed 2 (Some "GRAY") Hr eq_refl).
Defined.

Lemma event_is_one_recomputation_witness :
  creationTarget None [@CallShow Q 1 None; CallDestroy; CallShow 2 None; CallShow 1 None]
  = Some 2 ∧
  ("resize" = "resize" ∨ "resize" = "scroll") ∧
  ∃ w w',
    run [CallShow 1 None; CallDestroy; CallShow 2 None; CallShow 1 None] (init lay0)
    = Ok tt w ∧
    dispatchEvent "resize" w = Ok tt w' ∧
    updateCirclePosition 2 w = Ok tt w' ∧
    dispatchEvent "resize" w' = Ok tt w'.
Proof.
  assert ("resize" = "resize" ∨ "resize" = "scroll") as Hty by (left; reflexivity).
  split; [reflexivity|]. split; [exact Hty|].
  exact (event_is_one_recomputation lay0
           [CallShow 1 None; CallDestroy; CallShow 2 None; CallShow 1 None] 2
           "resize" eq_refl Hty).
Defined.

Lemma hide_then_show_is_show_witness :
  reachable purpleShown ∧
  ∃ w1 w2, hideCircle purpleShown = Ok tt w1 ∧
           showCircle 2 None w1 = Ok tt w2 ∧
           showCircle 2 None purpleShown = Ok tt w2.
Proof.
  assert (reachable purpleShown) as Hr.
  { exists lay0, [CallShow 1 (Some "PURPLE")]. vm_compute. reflexivity. }
  split; [exact Hr|].
  exact (hide_then_show_is_show purpleShown 2 None Hr).
Defined.

(** The plain module at work: its indicator is the blue one, and a
    second call leaves it so. *)
Example plainShown_state :
  circle plainShown = Some 3 ∧ inBody plainShown = [3] ∧
  styleOf 3 "background" plainShown
  = Some (Css "radial-gradient(circle, #5f9eff, #003f9f)") ∧
  plainShown = after [CallShow 1 None].
Proof. vm_compute. by repeat split. Qed.

(** Three indicators created, six listeners left. *)
Example listeners_pile_up :
  length (listeners
            (after [CallShow 1 None; CallDestroy; CallShow 1 None; CallHide;
                    CallDestroy; CallShow 2 None; CallShow 1 None]))
  = 6.
Proof. vm_compute. reflexivity. Qed.
